(** * pyrlp: the structured-record layer ([rlp.sedes.serializable]) and its
    error taxonomy ([rlp.exceptions]), embedded in Rocq.

    Python dictionaries and keyword arguments are finite maps ([gmap]),
    Python sets are [gset]s, tuples and lists are [list]s under two different
    constructors of [value].  Code that can raise returns a [result]; code that
    mutates an object returns the object in its new state. *)

From Stdlib Require Import ZArith DecimalString.
From stdpp Require Import base gmap strings list sorting.

#[local] Set Warnings "-register-all".

Local Open Scope Z_scope.

(* ===================================================================== *)
(** ** Python values *)
(* ===================================================================== *)

(** The scalar field values of a record: [None], integers, byte strings and
    text.  Python's [==] on them is equality of the model. *)
Inductive atom :=
| ANone
| AInt (n : Z)
| ABytes (b : string)
| AStr (s : string).

Global Instance atom_eq_dec : EqDecision atom.
Proof. solve_decision. Defined.

(** A field value: a scalar, a [list] (mutable) or a [tuple] (immutable) of
    field values. *)
Inductive value :=
| VAtom (a : atom)
| VList (items : list value)
| VTuple (items : list value).

(** A Python object as exceptions carry it and as a sedes receives it: a
    plain value, or a record given by the name of its class and the sequence
    of field values that iterating it yields. *)
Inductive pyobj :=
| OValue (v : value)
| ORecord (type_name : string) (field_values : list value).

(** The wire item of the codec: a byte string or a sequence of wire items. *)
Inductive item :=
| IBytes (b : string)
| IList (items : list item).

(* ===================================================================== *)
(** ** Exceptions ([rlp/exceptions.py] and the builtin ones the code raises) *)
(* ===================================================================== *)

Inductive exn :=
| TypeError (message : string)
| ValueError (message : string)
| AttributeError (message : string)
| KeyError (key : string)
| IndexError (message : string)
| AssertionError
| SerializationError (message : string) (obj : option pyobj)
| ListSerializationError (message : string) (obj : option pyobj)
    (element_exception : option exn) (index : option Z)
| ObjectSerializationError (message : string) (obj : option pyobj)
    (field : option string) (list_exception : option exn).

Inductive result (A : Type) :=
| Ok (a : A)
| Raise (e : exn).
Arguments Ok {A} a.
Arguments Raise {A} e.

Definition bind {A B} (m : result A) (k : A → result B) : result B :=
  match m with
  | Ok a => k a
  | Raise e => Raise e
  end.

Notation "x <- m ;; k" := (bind m (λ x, k))
  (at level 100, m at next level, right associativity,
   format "'[v' x  <-  m  ;;  '/' k ']'").

(** [for x in l: ... f(x) ...] collecting the results; the first exception
    stops the loop. *)
Definition mapM {A B} (f : A → result B) : list A → result (list B) :=
  fix go l :=
    match l with
    | [] => Ok []
    | x :: l' => y <- f x ;; ys <- go l' ;; Ok (y :: ys)
    end.

Definition is_ok {A} (m : result A) : bool :=
  match m with Ok _ => true | Raise _ => false end.

(* ===================================================================== *)
(** ** Text helpers: [str.format], [sorted], [','.join] *)
(* ===================================================================== *)

(** The double-quote character (code 34). *)
Definition dquote : string := String (Ascii.ascii_of_nat 34) EmptyString.

Definition str_of_nat (n : nat) : string := NilEmpty.string_of_uint (Nat.to_uint n).

Definition str_of_Z (n : Z) : string :=
  match n with
  | Z0 => "0"
  | Zpos p => str_of_nat (Pos.to_nat p)
  | Zneg p => "-" +:+ str_of_nat (Pos.to_nat p)
  end.

(** [sep.join(l)] *)
Fixpoint join (sep : string) (l : list string) : string :=
  match l with
  | [] => EmptyString
  | [s] => s
  | s :: l' => s +:+ sep +:+ join sep l'
  end.

(** [sorted(names)] on strings: ascending in the order of code points (the
    order of the bytes of the UTF-8 encoding). *)
Definition sorted (l : list string) : list string := merge_sort String.le l.

(** [repr] of a list of strings, as [format] prints [sorted(a_set)]:
    [['a', 'b']].  The names are printed as they are (the names the code
    prints are argument names, which hold no quote, backslash or control
    character). *)
Definition repr_list (l : list string) : string :=
  "[" +:+ join ", " ((λ s, "'" +:+ s +:+ "'") <$> l) +:+ "]".

(** [str(e)]: the message an exception was built with ([KeyError] prints the
    [repr] of its key). *)
Definition exn_str (e : exn) : string :=
  match e with
  | TypeError m | ValueError m | AttributeError m | IndexError m => m
  | KeyError k => "'" +:+ k +:+ "'"
  | AssertionError => EmptyString
  | SerializationError m _ => m
  | ListSerializationError m _ _ _ => m
  | ObjectSerializationError m _ _ _ => m
  end.

(** [seq[i]] on a tuple: a negative index counts from the end. *)
Definition py_index {A} (seq : list A) (i : Z) : result A :=
  let n := Z.of_nat (length seq) in
  let j := if i <? 0 then i + n else i in
  if (j <? 0) || (n <=? j) then Raise (IndexError "tuple index out of range")
  else match seq !! Z.to_nat j with
       | Some x => Ok x
       | None => Raise (IndexError "tuple index out of range")
       end.

(* ===================================================================== *)
(** ** [make_immutable] and [_eq] *)
(* ===================================================================== *)

(** [make_immutable(value)]: a [list] becomes the [tuple] of the projections
    of its items; every other value, a [tuple] included, is returned as it
    is. *)
Fixpoint make_immutable (v : value) : value :=
  match v with
  | VList items => VTuple (make_immutable <$> items)
  | _ => v
  end.

(** Python's [left == right] on field values: scalars by value, a list only
    with a list and a tuple only with a tuple, item by item. *)
Fixpoint py_eq (left right : value) {struct left} : bool :=
  let fix all_eq (l r : list value) {struct l} : bool :=
    match l, r with
    | [], [] => true
    | x :: l', y :: r' => py_eq x y && all_eq l' r'
    | _, _ => false
    end in
  match left, right with
  | VAtom a, VAtom b => bool_decide (a = b)
  | VList l, VList r => all_eq l r
  | VTuple l, VTuple r => all_eq l r
  | _, _ => false
  end.

(** [_eq(left, right)]: equality comparison that allows for equality between
    tuple and list types with equivalent elements. *)
Fixpoint _eq (left right : value) {struct left} : bool :=
  let fix all_pairs (l r : list value) {struct l} : bool :=
    (* all of _eq(x, y) for (x, y) in zip(left, right) *)
    match l, r with
    | x :: l', y :: r' => _eq x y && all_pairs l' r'
    | _, _ => true
    end in
  match left, right with
  | (VList l | VTuple l), (VList r | VTuple r) =>
      bool_decide (length l = length r) && all_pairs l r
  | _, _ => py_eq left right
  end.

(* ===================================================================== *)
(** ** The builtin [hash] *)
(* ===================================================================== *)

(** Python's [hash] protocol on field values.  The interpreter fixes how a
    scalar hashes and how a tuple combines the hashes of its items; a list
    has no hash. *)
Class PyHash := {
  hash_atom : atom → Z;
  hash_tuple : list Z → Z;
}.

Section hash.
Context `{PyHash}.

(** [hash(v)] *)
Fixpoint hash (v : value) : result Z :=
  match v with
  | VAtom a => Ok (hash_atom a)
  | VList _ => Raise (TypeError "unhashable type: 'list'")
  | VTuple items => hs <- mapM hash items ;; Ok (hash_tuple hs)
  end.
End hash.

(* ===================================================================== *)
(** ** Argument merging *)
(* ===================================================================== *)

(** [collections.Counter(values)] *)
Definition Counter (values : list string) : gmap string nat :=
  foldl (λ counts v, <[v := S (default 0%nat (counts !! v))]> counts) ∅ values.

(** [_get_duplicates(values)]: the items counted more than once.  The
    callers only test the result for emptiness and sort it, so the order of
    the tuple is not modelled. *)
Definition _get_duplicates (values : list string) : list string :=
  (map_to_list (filter (λ kn, (1 < kn.2)%nat) (Counter values))).*1.

Definition validate_args_and_kwargs (args : list value) (kwargs : gmap string value)
    (arg_names : list string) (allow_missing : bool) : result unit :=
  let duplicate_arg_names := _get_duplicates arg_names in
  if bool_decide (duplicate_arg_names ≠ []) then
    Raise (TypeError ("Duplicate argument names: " +:+ repr_list (sorted duplicate_arg_names)))
  else
  let needed_kwargs := drop (length args) arg_names in
  let used_kwargs : gset string := list_to_set (take (length args) arg_names) in
  let duplicate_kwargs := used_kwargs ∩ dom kwargs in
  if bool_decide (duplicate_kwargs ≠ ∅) then
    Raise (TypeError ("Duplicate kwargs: " +:+ repr_list (sorted (elements duplicate_kwargs))))
  else
  let unknown_kwargs : gset string := dom kwargs ∖ list_to_set arg_names in
  if bool_decide (unknown_kwargs ≠ ∅) then
    Raise (TypeError ("Unknown kwargs: " +:+ repr_list (sorted (elements unknown_kwargs))))
  else
  let missing_kwargs : gset string := list_to_set needed_kwargs ∖ dom kwargs in
  if negb allow_missing && bool_decide (missing_kwargs ≠ ∅) then
    Raise (TypeError ("Missing kwargs: " +:+ repr_list (sorted (elements missing_kwargs))))
  else Ok ().

(** [kwargs[arg_name]] *)
Definition getitem_dict (kwargs : gmap string value) (arg_name : string) : result value :=
  match kwargs !! arg_name with
  | Some v => Ok v
  | None => Raise (KeyError arg_name)
  end.

Definition merge_kwargs_to_args (args : list value) (kwargs : gmap string value)
    (arg_names : list string) (allow_missing : bool) : result (list value) :=
  _ <- validate_args_and_kwargs args kwargs arg_names allow_missing ;;
  let needed_kwargs := drop (length args) arg_names in
  rest <- mapM (getitem_dict kwargs) needed_kwargs ;;
  Ok (args ++ rest).

(** [dict(pairs)]: a later pair overrides an earlier one with the same key. *)
Definition py_dict {V} (init : gmap string V) (pairs : list (string * V)) : gmap string V :=
  foldl (λ d kv, <[kv.1 := kv.2]> d) init pairs.

Definition merge_args_to_kwargs (args : list value) (kwargs : gmap string value)
    (arg_names : list string) (allow_missing : bool) : result (gmap string value) :=
  _ <- validate_args_and_kwargs args kwargs arg_names allow_missing ;;
  (* yield from kwargs.items(), then (name, value) for value, name in zip(args, arg_names) *)
  Ok (py_dict kwargs ((λ vn, (vn.2, vn.1)) <$> zip args arg_names)).

(* ===================================================================== *)
(** ** Sedes, schemas and classes *)
(* ===================================================================== *)

(** A sedes, by what the record layer uses of it: [serialize(obj)].  The
    leaf sedes are external collaborators of the record layer. *)
Record Sedes := {
  sedes_serialize : pyobj → result item;
}.

(** The [Meta] class that [SerializableBase.__new__] attaches as [_meta]. *)
Record Meta := {
  fields : list (string * Sedes);
  field_names : list string;
  field_attrs : list string;
  sedes : Sedes;
}.

(** A class, by what the record layer reads of it.  The namespace of a
    class made by [SerializableBase.__new__] is
    [dict(field_props + tuple(attrs.items()))]: under the name of a field it
    holds the property of the field, unless the class body ([attrs], to
    which [__new__] adds [_meta]) binds the name, which then stands for
    what the body bound.  [cls_body] collects the names that the body of
    the class and the bodies of its ancestors below [BaseSerializable]
    bind: what they bind comes before the attributes of [BaseSerializable]
    in the lookup on the class and its instances. *)
Record PyClass := {
  cls_name : string;                   (* __name__ *)
  cls_is_serializable : bool;          (* isinstance(cls, SerializableBase) *)
  cls_issubclass_Serializable : bool;  (* issubclass(cls, Serializable) *)
  cls_meta : option Meta;              (* _meta, for a class that has one *)
  cls_body : gset string;              (* the names the class bodies bind, _meta included *)
  cls_mro_namespace : gset string;     (* the names in the namespaces of __mro__ *)
}.

(** An instance of a class made by [SerializableBase]: its class, the
    field slots of its [__dict__], and the attribute [_hash_cache] ([None]
    is the class attribute of [BaseSerializable], [Some h] the instance
    attribute that [__hash__] writes).  Keeping [_hash_cache] beside the
    slots is right for a class none of whose fields or slots is called
    [_hash_cache] (a field of that name would put its property in the way
    of [self._hash_cache], a slot of that name would be that attribute);
    the statements about hashing assume such a class ([plain_class]). *)
Record Serializable := {
  __class__ : PyClass;
  __dict__ : gmap string value;
  _hash_cache : option Z;
}.

(** Any Python object that may be compared with a record or handed to
    [serialize]: a plain value or a record. *)
Inductive PyAny :=
| AnyValue (v : value)
| AnyRecord (r : Serializable).

(* ===================================================================== *)
(** ** Exception constructors with logic of their own *)
(* ===================================================================== *)

(** [ListSerializationError.__init__] *)
Definition ListSerializationError__init__ (message : option string) (obj : option pyobj)
    (element_exception : option exn) (index : option Z) : result exn :=
  match message with
  | None =>
      match index, element_exception with
      | None, _ => Raise AssertionError
      | Some _, None => Raise AssertionError
      | Some i, Some e =>
          let message := "Serialization failed because of element at index "
                         +:+ str_of_Z i +:+ " (" +:+ dquote +:+ exn_str e +:+ dquote +:+ ")" in
          Ok (ListSerializationError message obj element_exception index)
      end
  | Some message => Ok (ListSerializationError message obj element_exception index)
  end.

(** [sedes._meta] on a class *)
Definition class_meta (cls : PyClass) : result Meta :=
  match cls_meta cls with
  | Some meta => Ok meta
  | None => Raise (AttributeError
      ("type object '" +:+ cls_name cls +:+ "' has no attribute '_meta'"))
  end.

(** [ObjectSerializationError.__init__] *)
Definition ObjectSerializationError__init__ (message : option string) (obj : option pyobj)
    (sedes : option PyClass) (list_exception : option exn) : result exn :=
  match message with
  | None =>
      match list_exception with
      | None => Raise AssertionError
      | Some (ListSerializationError list_message _ element_exception index) =>
          match element_exception with
          | None =>
              let message := "Serialization failed because of underlying list ("
                             +:+ dquote +:+ list_message +:+ dquote +:+ ")" in
              Ok (ObjectSerializationError message obj None list_exception)
          | Some e =>
              match sedes with
              | None => Raise AssertionError
              | Some cls =>
                  meta <- class_meta cls ;;
                  match index with
                  | None => Raise (TypeError
                      "tuple indices must be integers or slices, not NoneType")
                  | Some i =>
                      field <- py_index (field_names meta) i ;;
                      let message := "Serialization failed because of field " +:+ field
                                     +:+ " (" +:+ dquote +:+ exn_str e +:+ dquote +:+ ")" in
                      Ok (ObjectSerializationError message obj (Some field) list_exception)
                  end
              end
          end
      | Some _ => Raise (AttributeError "object has no attribute 'element_exception'")
      end
  | Some message => Ok (ObjectSerializationError message obj None list_exception)
  end.

(* ===================================================================== *)
(** ** The list sedes *)
(* ===================================================================== *)

(** The ordered sequence a sedes iterates when it is handed [obj]. *)
Definition pyobj_items (obj : pyobj) : option (list value) :=
  match obj with
  | OValue (VList l) | OValue (VTuple l) => Some l
  | OValue (VAtom _) => None
  | ORecord _ l => Some l
  end.

(** Position by position: [sedes[i].serialize(values[i])], a failure wrapped
    into the list error that carries [i] and the cause. *)
Fixpoint serialize_elements (obj : pyobj) (i : nat) (elements : list Sedes)
    (values : list value) : result (list item) :=
  match elements, values with
  | s :: elements', v :: values' =>
      match sedes_serialize s (OValue v) with
      | Ok x => xs <- serialize_elements obj (S i) elements' values' ;; Ok (x :: xs)
      | Raise e =>
          e' <- ListSerializationError__init__ None (Some obj) (Some e) (Some (Z.of_nat i)) ;;
          Raise e'
      end
  | _, _ => Ok []
  end.

(** Modelled from the spec: the list sedes [List] of [rlp/sedes/lists.py],
    which is not among the sources.  The spec, section 4.2: if the number of
    values is not the arity, fail with a generic (non-indexed)
    list-serialization error; else serialize position by position, wrap a
    failure into an index-tagged list-serialization error carrying the
    position and the cause, and stop; the successful results form a wire
    sequence.  The text of the generic error is not given by the spec, and an
    object that is no sequence is given the generic error as well. *)
Definition ListSedes (elements : list Sedes) : Sedes := {|
  sedes_serialize obj :=
    match pyobj_items obj with
    | None => Raise (ListSerializationError "Can only serialize sequences" (Some obj) None None)
    | Some values =>
        if bool_decide (length values ≠ length elements) then
          Raise (ListSerializationError "Serialized list length does not match sedes"
                   (Some obj) None None)
        else xs <- serialize_elements obj 0 elements values ;; Ok (IList xs)
    end
|}.

(* ===================================================================== *)
(** ** [BaseSerializable] *)
(* ===================================================================== *)

(** [getattr(self, attr)] for a field slot [attr]: the instance attribute.
    (The lookup goes to the instance because the namespace of the class has
    no entry under the name of a slot, see [plain_slots].) *)
Definition getattr_slot (self : Serializable) (attr : string) : result value :=
  match __dict__ self !! attr with
  | Some v => Ok v
  | None => Raise (AttributeError
      ("'" +:+ cls_name (__class__ self) +:+ "' object has no attribute '" +:+ attr +:+ "'"))
  end.

(** The read-only properties that [SerializableBase.__new__] puts in the
    namespace of the class: one per pair of [zip(field_names, field_attrs)],
    named by the field and reading the slot. *)
Definition field_props (meta : Meta) : gmap string string :=
  py_dict ∅ (zip (field_names meta) (field_attrs meta)).

(** [type(v).__name__] of a field value. *)
Definition type_name (v : value) : string :=
  match v with
  | VAtom ANone => "NoneType"
  | VAtom (AInt _) => "int"
  | VAtom (ABytes _) => "bytes"
  | VAtom (AStr _) => "str"
  | VList _ => "list"
  | VTuple _ => "tuple"
  end.

(** [self._meta.attribute] on an instance.  [_meta] is an attribute of the
    class and no data descriptor, so an instance attribute [_meta] (a field
    slot of that name, which holds a field value) hides it, and a field
    value has none of the attributes of [Meta]. *)
Definition instance_meta (self : Serializable) (attribute : string) : result Meta :=
  match __dict__ self !! "_meta" with
  | Some v => Raise (AttributeError
      ("'" +:+ type_name v +:+ "' object has no attribute '" +:+ attribute +:+ "'"))
  | None =>
      match cls_meta (__class__ self) with
      | Some meta => Ok meta
      | None => Raise (AttributeError
          ("'" +:+ cls_name (__class__ self) +:+ "' object has no attribute '_meta'"))
      end
  end.

(** [getattr(self, name)]: a field property reads its slot (a property is a
    data descriptor and goes first), then the instance attributes.  This is
    the lookup for the name of a field whose property the class body does
    not hide ([plain_shown]); the other attributes of the class (its
    methods, [_meta], what the class body binds) are no field values and
    are not modelled. *)
Definition getattr (self : Serializable) (name : string) : result value :=
  meta <- class_meta (__class__ self) ;;
  match field_props meta !! name with
  | Some attr => getattr_slot self attr
  | None => getattr_slot self name
  end.

(** The index of [__getitem__]: an [int] or a [str] (slices are not modelled). *)
Inductive subscript :=
| IdxInt (i : Z)
| IdxStr (s : string).

Module BaseSerializable.

(** [cls( *args, **kwargs)], which calls [__init__(self, *args, **kwargs)] on
    a new instance: the keyword [self] collides with the first parameter.
    The instance has no attribute yet when [self._meta] is read, which is
    the [_meta] of the class. *)
Definition __init__ (cls : PyClass) (args : list value) (kwargs : gmap string value)
    : result Serializable :=
  if bool_decide ("self" ∈ dom kwargs) then
    Raise (TypeError "__init__() got multiple values for argument 'self'")
  else
  meta <- class_meta cls ;;
  field_values <-
    (if bool_decide (kwargs ≠ ∅)
     then merge_kwargs_to_args args kwargs (field_names meta) false
     else Ok args) ;;
  if bool_decide (length field_values ≠ length (field_names meta)) then
    Raise (TypeError
      ("Argument count mismatch. expected " +:+ str_of_nat (length (field_names meta))
       +:+ " - got " +:+ str_of_nat (length field_values)
       +:+ " - missing " +:+ join "," (drop (length field_values) (field_names meta))))
  else
    Ok {| __class__ := cls;
          __dict__ := foldl (λ d va, <[va.2 := make_immutable va.1]> d) ∅
                        (zip field_values (field_attrs meta));
          _hash_cache := None |}.

(** [tuple(self)], through [__iter__] *)
Definition __iter__ (self : Serializable) : result (list value) :=
  meta <- instance_meta self "field_attrs" ;;
  mapM (getattr_slot self) (field_attrs meta).

Definition __getitem__ (self : Serializable) (idx : subscript) : result value :=
  match idx with
  | IdxInt i =>
      meta <- instance_meta self "field_attrs" ;;
      attr <- py_index (field_attrs meta) i ;;
      getattr_slot self attr
  | IdxStr s => getattr self s
  end.

Section hashing.
Context `{PyHash}.

(** [__hash__]: the hash and the record with its cache written. *)
Definition __hash__ (self : Serializable) : result (Z * Serializable) :=
  match _hash_cache self with
  | None =>
      items <- __iter__ self ;;
      h <- hash (VTuple items) ;;
      Ok (h, {| __class__ := __class__ self; __dict__ := __dict__ self;
                _hash_cache := Some h |})
  | Some h => Ok (h, self)
  end.

End hashing.

(** The object as a sedes and an exception see it. *)
Definition as_pyobj (obj : PyAny) : result pyobj :=
  match obj with
  | AnyValue v => Ok (OValue v)
  | AnyRecord r =>
      items <- __iter__ r ;;
      Ok (ORecord (cls_name (__class__ r)) items)
  end.

(** The class method [serialize(cls, obj)]. *)
Definition serialize (cls : PyClass) (obj : PyAny) : result item :=
  meta <- class_meta cls ;;
  o <- as_pyobj obj ;;
  match sedes_serialize (sedes meta) o with
  | Ok x => Ok x
  | Raise (ListSerializationError _ _ _ _ as e) =>
      e' <- ObjectSerializationError__init__ None (Some o) (Some cls) (Some e) ;;
      Raise e'
  | Raise e => Raise e
  end.

(** [self.method()] for a method of [BaseSerializable]: the property of a
    field called [method] is found first, and the field value it returns is
    then called. *)
Definition call_method {A} (self : Serializable) (method : string) (body : result A)
    : result A :=
  match cls_meta (__class__ self) with
  | Some meta =>
      match field_props meta !! method with
      | Some attr =>
          v <- getattr_slot self attr ;;
          Raise (TypeError ("'" +:+ type_name v +:+ "' object is not callable"))
      | None => body
      end
  | None => body
  end.

(** [as_dict]: [dict(zip(self._meta.field_names, self))] *)
Definition as_dict (self : Serializable) : result (gmap string value) :=
  meta <- instance_meta self "field_names" ;;
  items <- __iter__ self ;;
  Ok (py_dict ∅ (zip (field_names meta) items)).

(** [len(self)] *)
Definition __len__ (self : Serializable) : result nat :=
  meta <- instance_meta self "fields" ;;
  Ok (length (fields meta)).

(** [__getstate__]: a copy of the instance dictionary (the field slots, and
    the cached hash once it is written) with [None] under [_hash_cache]. *)
Definition __getstate__ (self : Serializable) : gmap string value :=
  let state :=
    match _hash_cache self with
    | Some h => <["_hash_cache" := VAtom (AInt h)]> (__dict__ self)
    | None => __dict__ self
    end in
  <["_hash_cache" := VAtom ANone]> state.

(** [copy.deepcopy(value)] of a field value: a value equal to it (the model
    gives values no identity). *)
Definition deepcopy (v : value) : value := v.

(** [copy(self, *args, **kwargs)].  [dict] called with two unpacked
    dictionaries refuses a key that both have. *)
Definition copy (self : Serializable) (args : list value) (kwargs : gmap string value)
    : result Serializable :=
  meta <- instance_meta self "field_names" ;;
  let missing_overrides : gset string :=
    (list_to_set (field_names meta) ∖ dom kwargs)
    ∖ list_to_set (take (length args) (field_names meta)) in
  d <- call_method self "as_dict" (as_dict self) ;;
  let unchanged_kwargs : gmap string value :=
    deepcopy <$> filter (λ kv, kv.1 ∈ missing_overrides) d in
  combined_kwargs <-
    (if bool_decide (dom unchanged_kwargs ∩ dom kwargs ≠ ∅) then
       Raise (TypeError "dict() got multiple values for keyword argument")
     else Ok (unchanged_kwargs ∪ kwargs)) ;;
  all_kwargs <- merge_args_to_kwargs args combined_kwargs (field_names meta) false ;;
  __init__ (__class__ self) [] all_kwargs.

(** [__copy__] and [__deepcopy__] *)
Definition __copy__ (self : Serializable) : result Serializable :=
  call_method self "copy" (copy self [] ∅).

Definition __deepcopy__ (self : Serializable) : result Serializable :=
  call_method self "copy" (copy self [] ∅).

End BaseSerializable.

(* ===================================================================== *)
(** ** Changesets *)
(* ===================================================================== *)

Inductive ChangesetState :=
| INITIALIZED
| OPEN
| CLOSED.

Global Instance ChangesetState_eq_dec : EqDecision ChangesetState.
Proof. solve_decision. Defined.

(** An instance of the changeset class that [Changeset] generates for a
    record: one [ChangesetField] descriptor per field name of the record's
    class, over the three attributes of [BaseChangeset].  (The three
    attributes are read and written as such: no field of the classes the
    statements consider is called [__original__], [__state__] or
    [__diff__], see [plain_public].) *)
Record changeset := {
  __original__ : Serializable;
  __state__ : ChangesetState;
  __diff__ : gmap string value;
}.

(** The names under which the class of a changeset holds a
    [ChangesetField]: the field names of the class of the original. *)
Definition changeset_fields (self : changeset) : list string :=
  match cls_meta (__class__ (__original__ self)) with
  | Some meta => field_names meta
  | None => []
  end.

Module ChangesetField.

(** [cs.field], through the descriptor of [field] *)
Definition __get__ (field : string) (instance : changeset) : result value :=
  if bool_decide (__state__ instance ≠ OPEN) then
    Raise (AttributeError "Changeset is not active.  Attribute access not allowed")
  else
    match __diff__ instance !! field with
    | Some v => Ok v
    | None => getattr (__original__ instance) field
    end.

(** [cs.field = value] *)
Definition __set__ (field : string) (instance : changeset) (v : value) : result changeset :=
  if bool_decide (__state__ instance ≠ OPEN) then
    Raise (AttributeError "Changeset is not active.  Attribute access not allowed")
  else
    Ok {| __original__ := __original__ instance;
          __state__ := __state__ instance;
          __diff__ := <[field := v]> (__diff__ instance) |}.

End ChangesetField.

Module BaseChangeset.

(** [self.method()] for a method of [BaseChangeset]: in the namespace of the
    generated class the [ChangesetField] of a field called [method] hides
    the method, and what the descriptor returns, a field value, is then
    called. *)
Definition call_method {A} (self : changeset) (method : string) (body : result A)
    : result A :=
  if bool_decide (method ∈ changeset_fields self) then
    v <- ChangesetField.__get__ method self ;;
    Raise (TypeError ("'" +:+ type_name v +:+ "' object is not callable"))
  else body.

Definition set_state (self : changeset) (s : ChangesetState) : changeset :=
  {| __original__ := __original__ self; __state__ := s; __diff__ := __diff__ self |}.

Definition __init__ (obj : Serializable) (changes : option (gmap string value)) : changeset :=
  {| __original__ := obj;
     __state__ := INITIALIZED;
     __diff__ := match changes with
                 | Some d => if bool_decide (d ≠ ∅) then d else ∅
                 | None => ∅
                 end |}.

Definition build_rlp (self : changeset) : result Serializable :=
  if bool_decide (__state__ self = OPEN) then
    meta <- instance_meta (__original__ self) "field_names" ;;
    pairs <- mapM (λ name,
                original_value <- BaseSerializable.__getitem__ (__original__ self) (IdxStr name) ;;
                Ok (name, default original_value (__diff__ self !! name)))
              (field_names meta) ;;
    let field_kwargs := py_dict ∅ pairs in
    BaseSerializable.__init__ (__class__ (__original__ self)) [] field_kwargs
  else Raise (ValueError "Cannot open Changeset which is not in the OPEN state").

Definition open (self : changeset) : result changeset :=
  if bool_decide (__state__ self = INITIALIZED) then Ok (set_state self OPEN)
  else Raise (ValueError "Cannot open Changeset which is not in the INITIALIZED state").

Definition close (self : changeset) : result changeset :=
  if bool_decide (__state__ self = OPEN) then Ok (set_state self CLOSED)
  else Raise (ValueError "Cannot close Changeset which is not in the OPEN state").

(** [commit]: the new record and the changeset as [close] leaves it. *)
Definition commit (self : changeset) : result (Serializable * changeset) :=
  obj <- call_method self "build_rlp" (build_rlp self) ;;
  self' <- call_method self "close" (close self) ;;
  Ok (obj, self').

Definition __enter__ (self : changeset) : result changeset :=
  if bool_decide (__state__ self = INITIALIZED) then call_method self "open" (open self)
  else Raise (ValueError "Cannot open Changeset which is not in the INITIALIZED state").

Definition __exit__ (self : changeset) : result changeset :=
  if bool_decide (__state__ self = OPEN) then call_method self "close" (close self)
  else Ok self.

End BaseChangeset.

(** [Changeset(obj, changes)]: the class is generated from
    [obj._meta.field_names], and instantiated. *)
Definition Changeset (obj : Serializable) (changes : gmap string value) : result changeset :=
  _ <- instance_meta obj "field_names" ;;
  Ok (BaseChangeset.__init__ obj (Some changes)).

(** [BaseSerializable.build_changeset(self, *args, **kwargs)] *)
Definition build_changeset (self : Serializable) (args : list value)
    (kwargs : gmap string value) : result changeset :=
  meta <- instance_meta self "field_names" ;;
  args_as_kwargs <- merge_args_to_kwargs args kwargs (field_names meta) true ;;
  Changeset self args_as_kwargs.

(* ===================================================================== *)
(** ** Schema construction: [SerializableBase.__new__] *)
(* ===================================================================== *)

(** One round of the [while True] loop of [_mk_field_attrs]: prefix an
    underscore until the name is not in the namespace.  The candidates are
    pairwise different, so the loop ends within [size namespace + 1] rounds;
    [fuel] counts the rounds that may still follow. *)
Fixpoint fresh_attr (fuel : nat) (namespace : gset string) (field : string) : string :=
  let field := "_" +:+ field in
  match fuel with
  | O => field
  | S fuel' =>
      if bool_decide (field ∈ namespace) then fresh_attr fuel' namespace field else field
  end.

Fixpoint _mk_field_attrs_from (namespace : gset string) (field_names : list string)
    : list string :=
  match field_names with
  | [] => []
  | field :: rest =>
      let attr := fresh_attr (size namespace) namespace field in
      attr :: _mk_field_attrs_from ({[attr]} ∪ namespace) rest
  end.

Definition _mk_field_attrs (field_names : list string) (extra_namespace : gset string)
    : list string :=
  _mk_field_attrs_from (list_to_set field_names ∪ extra_namespace) field_names.

(** What the code takes from the interpreter and its library.  Text is held
    by its UTF-8 encoding. *)
Class Interpreter := {
  (** [IDENTIFIER_REGEX.match(value)] for text with a character outside
      ASCII: the regex is compiled with [re.UNICODE], under which the
      letters and digits of every script count, as the Unicode tables of the
      interpreter say. *)
  identifier_match : string → bool;
  (** [abc.ABCMeta.__new__(cls, name, bases, namespace)], the creation of
      the class itself, by the names of the namespace (those that stand for
      the property of a field, and those of [attrs]): the exception it
      raises (on a property under [__slots__], on bases without a linear
      order, ...), or the names it adds to the namespace of the new class
      ([__doc__], [_abc_impl], ...). *)
  super_new : string → list PyClass → list string → gset string → result (gset string);
}.

(** The character classes of [IDENTIFIER_REGEX] on ASCII text: [\w] is a
    letter, a digit or the underscore, [\d] a digit. *)
Definition is_ascii (c : Ascii.ascii) : bool := (Ascii.nat_of_ascii c <? 128)%nat.

Definition is_digit (c : Ascii.ascii) : bool :=
  let n := Ascii.nat_of_ascii c in (48 <=? n)%nat && (n <=? 57)%nat.

Definition is_word (c : Ascii.ascii) : bool :=
  let n := Ascii.nat_of_ascii c in
  ((65 <=? n)%nat && (n <=? 90)%nat) || ((97 <=? n)%nat && (n <=? 122)%nat)
  || (n =? 95)%nat || is_digit c.

(** [IDENTIFIER_REGEX.match(value)], for a [str]: one word character that is
    no digit, then word characters up to the end. *)
Definition _is_valid_identifier `{Interpreter} (value : string) : bool :=
  if forallb is_ascii (String.list_ascii_of_string value) then
    match value with
    | EmptyString => false
    | String c rest =>
        is_word c && negb (is_digit c) && forallb is_word (String.list_ascii_of_string rest)
    end
  else identifier_match value.

(** [hasattr(base, '_meta')] and [base._meta.field_names] *)
Definition has_meta (base : PyClass) : Prop := is_Some (cls_meta base).

Global Instance has_meta_dec base : Decision (has_meta base).
Proof. unfold has_meta. apply _. Defined.

Definition meta_field_names (base : PyClass) : list string :=
  match cls_meta base with
  | Some meta => field_names meta
  | None => []
  end.

(** [tuple(b for b in bases if isinstance(b, SerializableBase))] *)
Definition serializable_bases_of (bases : list PyClass) : list PyClass :=
  filter (λ b, cls_is_serializable b = true) bases.

(** The set of the field names of the parent classes that have a schema. *)
Definition parent_field_names_of (serializable_bases : list PyClass) : gset string :=
  list_to_set (base ← filter has_meta serializable_bases; meta_field_names base).

(** The text before the names in the error for missing parent fields. *)
Definition missing_fields_message : string :=
  "Subclasses of `Serializable` **must** contain a full superset "
  +:+ "of the fields defined in their parent classes.  The following "
  +:+ "fields are missing: ".

Module SerializableBase.

Section new.
Context `{Interpreter}.

(** [SerializableBase.__new__(cls, name, bases, attrs)], where [attrs] is
    given by its ['fields'] entry, if it has one, and its other keys.  The
    class is created by the last call, [super_new]. *)
Definition __new__ (name : string) (bases : list PyClass)
    (attrs_fields : option (list (string * Sedes))) (attrs_keys : gset string)
    : result PyClass :=
  let serializable_bases := serializable_bases_of bases in
  let has_multiple_serializable_parents := bool_decide (1 < length serializable_bases)%nat in
  let is_serializable_subclass := bool_decide (serializable_bases ≠ []) in
  let bases_namespace : gset string := ⋃ (cls_mro_namespace <$> bases) in
  let bases_body : gset string := ⋃ (cls_body <$> bases) in
  let issubclass_Serializable := existsb cls_issubclass_Serializable bases in
  if negb is_serializable_subclass then
    let attrs : gset string :=
      attrs_keys ∪ (match attrs_fields with Some _ => {["fields"]} | None => ∅ end) in
    added <- super_new name bases [] attrs ;;
    Ok {| cls_name := name; cls_is_serializable := true;
          cls_issubclass_Serializable := issubclass_Serializable;
          cls_meta := None; cls_body := attrs ∪ bases_body;
          cls_mro_namespace := attrs ∪ added ∪ bases_namespace |}
  else
    fields <-
      match attrs_fields with
      | None =>
          if has_multiple_serializable_parents then
            Raise (TypeError
              ("Cannot create subclass from multiple parent `Serializable` "
               +:+ "classes without explicit `fields` declaration."))
          else
            match serializable_bases with
            | parent_serializable :: _ =>
                match cls_meta parent_serializable with
                | Some meta => Ok (fields meta)
                | None => Ok []
                end
            | [] => Ok []
            end
      | Some declared => Ok declared
      end ;;
    (* split the fields into names and sedes *)
    let field_names := fields.*1 in
    let sedes := fields.*2 in
    (* check that field names are unique *)
    let duplicate_field_names := _get_duplicates field_names in
    if bool_decide (duplicate_field_names ≠ []) then
      Raise (TypeError
        ("The following fields are duplicated in the `fields` declaration: "
         +:+ join "," (sorted duplicate_field_names)))
    else
    (* check that field names are valid identifiers *)
    let invalid_field_names : gset string :=
      list_to_set (filter (λ field_name, _is_valid_identifier field_name = false) field_names) in
    if bool_decide (invalid_field_names ≠ ∅) then
      Raise (TypeError
        ("The following field names are not valid python identifiers: "
         +:+ join "," ((λ item, "`" +:+ item +:+ "`") <$> sorted (elements invalid_field_names))))
    else
    (* extract all of the fields from parent `Serializable` classes *)
    let parent_field_names := parent_field_names_of serializable_bases in
    let missing_fields := parent_field_names ∖ list_to_set field_names in
    if bool_decide (missing_fields ≠ ∅) then
      Raise (TypeError
        (missing_fields_message +:+ join "," (sorted (elements missing_fields))))
    else
    let reserved_namespace := attrs_keys ∪ bases_namespace in
    let field_attrs := _mk_field_attrs field_names reserved_namespace in
    let meta := {| fields := fields; field_attrs := field_attrs;
                   field_names := field_names; sedes := ListSedes sedes |} in
    let attrs : gset string := attrs_keys ∪ {["_meta"]} in
    added <- super_new name bases field_names attrs ;;
    Ok {| cls_name := name; cls_is_serializable := true;
          cls_issubclass_Serializable := issubclass_Serializable;
          cls_meta := Some meta; cls_body := attrs ∪ bases_body;
          cls_mro_namespace := list_to_set field_names ∪ attrs ∪ added ∪ bases_namespace |}.

End new.

End SerializableBase.

(* ===================================================================== *)
(** ** Sample classes and records *)
(* ===================================================================== *)

(** A leaf sedes in the manner of [rlp.sedes.binary]: byte strings
    serialize to themselves, anything else is refused. *)
Definition binary : Sedes := {|
  sedes_serialize obj :=
    match obj with
    | OValue (VAtom (ABytes b)) => Ok (IBytes b)
    | _ => Raise (SerializationError "Object is not a serializable" (Some obj))
    end
|}.

(** A leaf sedes that takes every value (a raw byte string for scalars). *)
Definition raw : Sedes := {| sedes_serialize _ := Ok (IBytes EmptyString) |}.

(** [BaseSerializable], a plain class over [collections.abc.Sequence], by
    the names in the namespaces of its [__mro__] (its own, those of the
    abstract base classes of [Sequence] and those of [object]).  It is the
    class whose methods are embedded here, so nothing is bound before
    them. *)
Definition BaseSerializable_class : PyClass := {|
  cls_name := "BaseSerializable";
  cls_is_serializable := false;
  cls_issubclass_Serializable := false;
  cls_meta := None;
  cls_body := ∅;
  cls_mro_namespace := list_to_set
    [     "__abstractmethods__"; "__annotations__"; "__class__"; "__class_getitem__";
     "__contains__"; "__copy__"; "__deepcopy__"; "__delattr__"; "__dict__"; "__dir__";
     "__doc__"; "__eq__"; "__format__"; "__ge__"; "__getattribute__"; "__getitem__";
     "__getstate__"; "__gt__"; "__hash__"; "__init__"; "__init_subclass__"; "__iter__";
     "__le__"; "__len__"; "__lt__"; "__module__"; "__ne__"; "__new__";
     "__orig_bases__"; "__reduce__"; "__reduce_ex__"; "__repr__"; "__reversed__";
     "__setattr__"; "__sizeof__"; "__slots__"; "__str__"; "__subclasshook__";
     "__weakref__"; "_abc_impl"; "_cached_rlp"; "_hash_cache"; "_in_mutable_context";
     "as_dict"; "build_changeset"; "copy"; "count"; "deserialize"; "index"; "serialize"]
|}.

(** An interpreter in the manner of CPython, for the sample classes: every
    character outside ASCII counts as a letter, and the creation of a class
    fails on a property under [__slots__] and adds the names that
    [abc.ABCMeta] and [type] add. *)
Definition sample_interpreter : Interpreter := {|
  identifier_match value :=
    match String.list_ascii_of_string value with
    | [] => false
    | c :: rest =>
        (negb (is_ascii c) || (is_word c && negb (is_digit c)))
        && forallb (λ c, negb (is_ascii c) || is_word c) rest
    end;
  super_new name bases props attrs :=
    if bool_decide ("__slots__" ∈ props) then
      Raise (TypeError "'property' object is not iterable")
    else Ok (list_to_set ["__module__"; "__doc__"; "__abstractmethods__"; "_abc_impl"])
|}.

Definition from_ok (r : result PyClass) : PyClass :=
  match r with
  | Ok cls => cls
  | Raise _ => BaseSerializable_class
  end.

(** [class Serializable(BaseSerializable, metaclass=SerializableBase): pass],
    the class that [isinstance(other, Serializable)] names. *)
Definition Serializable_class : PyClass := Eval vm_compute in
  let cls := from_ok (@SerializableBase.__new__ sample_interpreter "Serializable"
                        [BaseSerializable_class] None
                        (list_to_set ["__module__"; "__qualname__"; "__doc__"])) in
  {| cls_name := cls_name cls; cls_is_serializable := cls_is_serializable cls;
     cls_issubclass_Serializable := true;
     cls_meta := cls_meta cls; cls_body := cls_body cls;
     cls_mro_namespace := cls_mro_namespace cls |}.

(** The names a class statement puts into [attrs] by itself. *)
Definition class_statement : gset string := list_to_set ["__module__"; "__qualname__"].

(** [class Point(Serializable): fields = (('x', raw), ('y', raw))] *)
Definition Point : PyClass := Eval vm_compute in
  from_ok (@SerializableBase.__new__ sample_interpreter "Point" [Serializable_class]
             (Some [("x", raw); ("y", raw)]) class_statement).


(** [class Triple(Serializable): fields = (('a', binary), ('b', binary), ('c', binary))] *)
Definition Triple : PyClass := Eval vm_compute in
  from_ok (@SerializableBase.__new__ sample_interpreter "Triple" [Serializable_class]
             (Some [("a", binary); ("b", binary); ("c", binary)]) class_statement).

(** [cls._meta] of a sample class. *)
Definition the_meta (cls : PyClass) : Meta :=
  default {| fields := []; field_names := []; field_attrs := []; sedes := ListSedes [] |}
          (cls_meta cls).

(** [class Box(Serializable): fields = (('items', raw),)] *)
Definition Box : PyClass := Eval vm_compute in
  from_ok (@SerializableBase.__new__ sample_interpreter "Box" [Serializable_class]
             (Some [("items", raw)]) class_statement).

(** A hash in the manner of the interpreter's: an integer hashes to itself,
    a tuple mixes the hashes of its items in order. *)
Definition sample_hash : PyHash := {|
  hash_atom a :=
    match a with
    | ANone => 0
    | AInt n => n
    | ABytes b => Z.of_nat (String.length b)
    | AStr s => Z.of_nat (String.length s) + 1
    end;
  hash_tuple hs := foldl (λ acc h, 31 * acc + h) 7 hs;
|}.

Definition int (n : Z) : value := VAtom (AInt n).

(* ===================================================================== *)
(** ** Invariants and the notions the statements use *)
(* ===================================================================== *)

(** What [SerializableBase.__new__] guarantees of a class with a schema:
    unique field names, and one private slot per field, the slots pairwise
    different. *)
Record class_ok (cls : PyClass) (meta : Meta) : Prop := {
  ok_meta : cls_meta cls = Some meta;
  ok_names : NoDup (field_names meta);
  ok_attrs : NoDup (field_attrs meta);
  ok_length : length (field_attrs meta) = length (field_names meta);
}.

(** A leading underscore. *)
Definition leading_underscore (s : string) : bool :=
  match s with
  | String c _ => (Ascii.nat_of_ascii c =? 95)%nat
  | EmptyString => false
  end.

(** The names of the namespace of [BaseSerializable] that a class statement
    binds by itself. *)
Definition class_statement_names : gset string :=
  list_to_set ["__module__"; "__doc__"; "__annotations__"].

(** The classes on which attribute lookup finds what the methods of
    [BaseSerializable] and [BaseChangeset] take for granted.
    - The name of a field is public: the private and the special names
      ([_meta], [_hash_cache], [__hash__], [__iter__], [__init__],
      [__class__], [__state__], ...) are those the methods and the
      interpreter look up on the class and the instance, and a field of
      such a name would put its property, or its [ChangesetField], in their
      place.
    - No class body binds the name of a field, so every field name stands
      for the property of the field.
    - No class body overrides an attribute of [BaseSerializable] (its
      methods, the attributes of [object]), or defines [__getattr__]: the
      methods that are called are those embedded here.
    - The namespace of the class holds the names of the fields, the names
      of [BaseSerializable] and [_meta], and has no entry under the name of
      a slot: a slot is an instance attribute that hides none of the
      class. *)
Record plain_class (cls : PyClass) (meta : Meta) : Prop := {
  plain_public : ∀ n, n ∈ field_names meta → leading_underscore n = false;
  plain_shown : ∀ n, n ∈ field_names meta → n ∉ cls_body cls;
  plain_methods :
    ("__getattr__" ∉ cls_body cls)
    ∧ cls_body cls ∩ cls_mro_namespace BaseSerializable_class ⊆ class_statement_names;
  plain_fields : ∀ n, n ∈ field_names meta → n ∈ cls_mro_namespace cls;
  plain_slots : ∀ a, a ∈ field_attrs meta → a ∉ cls_mro_namespace cls;
  plain_bases :
    {["_meta"]} ∪ cls_mro_namespace BaseSerializable_class ⊆ cls_mro_namespace cls;
}.

(** No field has the name of the first parameter of the constructor, which
    [build_rlp] calls with one named argument per field, or of a method
    that is called on a changeset ([commit], and in it [build_rlp] and
    [close]; [open] in [__enter__]). *)
Definition changeset_names_free (meta : Meta) : Prop :=
  Forall (λ n, n ∉ field_names meta) ["self"; "commit"; "build_rlp"; "open"; "close"].

(** No field has the name of the first parameter of the constructor or of
    a method that [copy] and [__copy__] call on the record. *)
Definition record_names_free (meta : Meta) : Prop :=
  Forall (λ n, n ∉ field_names meta) ["self"; "as_dict"; "copy"].

(** The four checks of [validate_args_and_kwargs], as one condition. *)
Definition valid_call (args : list value) (kwargs : gmap string value)
    (arg_names : list string) (allow_missing : bool) : Prop :=
  NoDup arg_names
  ∧ (∀ name, name ∈ take (length args) arg_names → name ∉ dom kwargs)
  ∧ (∀ name, name ∈ dom kwargs → name ∈ arg_names)
  ∧ (allow_missing = false →
     ∀ name, name ∈ drop (length args) arg_names → name ∈ dom kwargs).

(** The record that [__init__] leaves for the field values [field_values]
    (one per field): every slot set, in order, to the immutable projection
    of its value. *)
Definition new_record (cls : PyClass) (meta : Meta) (field_values : list value)
    : Serializable :=
  {| __class__ := cls;
     __dict__ := foldl (λ d va, <[va.2 := make_immutable va.1]> d) ∅
                   (zip field_values (field_attrs meta));
     _hash_cache := None |}.

(** The value that a complete call of the constructor gives the field at
    position [i], named [name]. *)
Definition argument (args : list value) (kwargs : gmap string value) (i : nat)
    (name : string) : option value :=
  match args !! i with
  | Some v => Some v
  | None => kwargs !! name
  end.

(** The value a record stores for the field [name]. *)
Definition field_value (r : Serializable) (name : string) : option value :=
  match cls_meta (__class__ r) with
  | Some meta =>
      match field_props meta !! name with
      | Some attr => __dict__ r !! attr
      | None => None
      end
  | None => None
  end.

Section records.
Context `{PyHash}.

(** The records of a class: built by the constructor, and then possibly
    hashed (which writes the cache). *)
Inductive record_of (cls : PyClass) : Serializable → Prop :=
| record_built args kwargs r :
    BaseSerializable.__init__ cls args kwargs = Ok r → record_of cls r
| record_hashed r h r' :
    record_of cls r → BaseSerializable.__hash__ r = Ok (h, r') → record_of cls r'.

End records.

(** The recursive immutable projection in the words of the spec: every
    ordered sequence, at any nesting depth, becomes an immutable ordered
    sequence of the projections of its elements. *)
Fixpoint immutable_projection (v : value) : value :=
  match v with
  | VAtom a => VAtom a
  | VList items | VTuple items => VTuple (immutable_projection <$> items)
  end.

(** No list anywhere in the value. *)
Fixpoint is_immutable (v : value) : bool :=
  match v with
  | VAtom _ => true
  | VList _ => false
  | VTuple items => forallb is_immutable items
  end.

(** No list inside a tuple: the lists of the value are reached through
    lists only. *)
Fixpoint tuples_immutable (v : value) : bool :=
  match v with
  | VAtom _ => true
  | VList items => forallb tuples_immutable items
  | VTuple items => forallb is_immutable items
  end.


(* ===================================================================== *)
(** ** Notions for the further properties *)
(* ===================================================================== *)

(** [k] underscores before [s]. *)
Fixpoint underscores (k : nat) (s : string) : string :=
  match k with
  | O => s
  | S k' => underscores k' ("_" +:+ s)
  end.

(** The calls a program can make on a changeset. *)
Inductive changeset_call :=
| CallOpen
| CallClose
| CallEnter
| CallExit
| CallCommit
| CallBuildRlp
| CallGet (field : string)
| CallSet (field : string) (v : value).

(** The changeset after one call: as the call leaves it when it returns, and
    as it was when the call raises (every [raise] of these methods comes
    before the first assignment). *)
Definition after_call (c : changeset_call) (cs : changeset) : changeset :=
  let call {A} (method : string) (body : result A) (after : A → changeset) :=
    match BaseChangeset.call_method cs method body with
    | Ok a => after a
    | Raise _ => cs
    end in
  match c with
  | CallOpen => call "open" (BaseChangeset.open cs) id
  | CallClose => call "close" (BaseChangeset.close cs) id
  | CallEnter => call "__enter__" (BaseChangeset.__enter__ cs) id
  | CallExit => call "__exit__" (BaseChangeset.__exit__ cs) id
  | CallCommit => call "commit" (BaseChangeset.commit cs) snd
  | CallBuildRlp => cs
  | CallGet _ => cs
  | CallSet field v =>
      match ChangesetField.__set__ field cs v with Ok cs' => cs' | Raise _ => cs end
  end.

(** The changeset after a sequence of calls, exceptions caught. *)
Definition after_calls (calls : list changeset_call) (cs : changeset) : changeset :=
  foldl (λ cs c, after_call c cs) cs calls.

(** The order of the life cycle: INITIALIZED, then OPEN, then CLOSED. *)
Definition state_rank (s : ChangesetState) : nat :=
  match s with
  | INITIALIZED => 0
  | OPEN => 1
  | CLOSED => 2
  end.
(* ===================================================================== *)
(** * Properties *)
(* ===================================================================== *)

(** ** Generic facts: values, the result monad, dictionaries *)

(** Induction on a value with the hypothesis for every item of a sequence. *)
Lemma value_ind_items (P : value → Prop) :
  (∀ a, P (VAtom a)) →
  (∀ items, Forall P items → P (VList items)) →
  (∀ items, Forall P items → P (VTuple items)) →
  ∀ v, P v.
Proof.
  intros Hatom Hlist Htuple.
  fix IH 1. intros [a|items|items].
  - apply Hatom.
  - apply Hlist. induction items as [|x items IHitems]; constructor; [apply IH | exact IHitems].
  - apply Htuple. induction items as [|x items IHitems]; constructor; [apply IH | exact IHitems].
Qed.

Lemma bind_ok {A B} (m : result A) (k : A → result B) b :
  bind m k = Ok b ↔ ∃ a, m = Ok a ∧ k a = Ok b.
Proof.
  destruct m as [a|e]; simpl.
  - split; [eauto | intros (a' & [= ->] & ?); done].
  - split; [done | intros (a' & ? & ?); done].
Qed.

Lemma mapM_ok {A B} (f : A → result B) l ys :
  mapM f l = Ok ys ↔ Forall2 (λ x y, f x = Ok y) l ys.
Proof.
  revert ys. induction l as [|x l IH]; intros ys; simpl.
  - split; [intros [= <-]; constructor | by inversion 1].
  - rewrite bind_ok. split.
    + intros (y & Hy & Hrest). apply bind_ok in Hrest as (ys' & Hys' & [= <-]).
      constructor; [done | by apply IH].
    + intros Hf. inversion Hf as [|? y ? ys' Hy Hys']; subst.
      exists y. split; [done|]. apply IH in Hys'. by rewrite Hys'.
Qed.

Lemma mapM_total {A B} (f : A → result B) l :
  Forall (λ x, ∃ y, f x = Ok y) l → ∃ ys, mapM f l = Ok ys.
Proof.
  induction 1 as [|x l [y Hy] _ [ys Hys]]; simpl; [eauto|].
  rewrite Hy, Hys. simpl. eauto.
Qed.

Lemma mapM_raise {A B} (f : A → result B) l x e :
  x ∈ l → f x = Raise e → ∃ e', mapM f l = Raise e'.
Proof.
  intros Hin Hx. induction l as [|z l IH]; [by apply elem_of_nil in Hin|].
  simpl. apply elem_of_cons in Hin as [<-|Hin].
  - rewrite Hx. simpl. eauto.
  - destruct (f z); simpl; [|eauto]. destruct (IH Hin) as [e' ->]. simpl. eauto.
Qed.

(** [dict(pairs)] on pairs with distinct keys: the entry of each pair. *)
Lemma py_dict_spec {V} (init : gmap string V) (pairs : list (string * V)) :
  py_dict init pairs = list_to_map (reverse pairs) ∪ init.
Proof.
  unfold py_dict. revert init. induction pairs as [|[k v] pairs IH]; intros init; simpl.
  - by rewrite (left_id_L ∅ (∪)).
  - rewrite IH, reverse_cons, list_to_map_app. simpl.
    rewrite <- (assoc_L (∪)). f_equal.
    by rewrite insert_empty, <- insert_union_singleton_l.
Qed.

Lemma py_dict_lookup {V} (pairs : list (string * V)) k v :
  NoDup pairs.*1 → (k, v) ∈ pairs → py_dict ∅ pairs !! k = Some v.
Proof.
  intros Hnd Hin. rewrite py_dict_spec, (right_id_L ∅ (∪)).
  apply elem_of_list_to_map_1.
  - by rewrite fmap_reverse, reverse_Permutation.
  - by apply elem_of_reverse.
Qed.

Lemma py_dict_lookup_None {V} (pairs : list (string * V)) k :
  k ∉ pairs.*1 → py_dict ∅ pairs !! k = None.
Proof.
  intros Hni. rewrite py_dict_spec, (right_id_L ∅ (∪)).
  apply not_elem_of_list_to_map_1. by rewrite fmap_reverse, elem_of_reverse.
Qed.

Lemma py_dict_dom {V} (pairs : list (string * V)) :
  dom (py_dict ∅ pairs) = list_to_set pairs.*1.
Proof.
  rewrite py_dict_spec, (right_id_L ∅ (∪)), dom_list_to_map_L, fmap_reverse.
  apply set_eq. intros k. by rewrite !elem_of_list_to_set, elem_of_reverse.
Qed.

Lemma list_to_set_empty_nil (l : list string) :
  (list_to_set l : gset string) = ∅ ↔ l = [].
Proof.
  split; [|by intros ->]. destruct l as [|x l]; [done|]. intros Hempty.
  exfalso. apply (not_elem_of_empty (C:=gset string) x). rewrite <- Hempty. set_solver.
Qed.

Lemma zip_fst_sublist {A B} (l : list A) (k : list B) : (zip l k).*1 `sublist_of` l.
Proof.
  revert k. induction l as [|x l IH]; intros [|y k]; simpl;
    [done | done | apply sublist_nil_l | by apply sublist_skip].
Qed.

Lemma zip_fst_NoDup {A B} (l : list A) (k : list B) : NoDup l → NoDup (zip l k).*1.
Proof. intros Hnd. exact (sublist_NoDup _ _ Hnd (zip_fst_sublist l k)). Qed.

Lemma zip_lookup_pair {A B} (l : list A) (k : list B) i x y :
  l !! i = Some x → k !! i = Some y → (x, y) ∈ zip l k.
Proof.
  intros Hx Hy. apply list_elem_of_lookup. exists i.
  rewrite lookup_zip_with, Hx. simpl. by rewrite Hy.
Qed.

(** ** Argument validation *)

Lemma Counter_lookup_from (values : list string) (acc : gmap string nat) k :
  foldl (λ counts v, <[v := S (default 0%nat (counts !! v))]> counts) acc values !! k =
  match count_occ String.string_dec values k with
  | O => acc !! k
  | S n => Some (S n + default 0 (acc !! k))%nat
  end.
Proof.
  revert acc. induction values as [|v values IH]; intros acc; [done|].
  cbn [foldl count_occ]. rewrite IH. destruct (String.string_dec v k) as [->|Hne].
  - rewrite lookup_insert_eq. simpl.
    destruct (count_occ _ values k); f_equal; lia.
  - by rewrite lookup_insert_ne.
Qed.

Lemma Counter_lookup (values : list string) k n :
  Counter values !! k = Some n ↔ (n = count_occ String.string_dec values k ∧ 0 < n)%nat.
Proof.
  unfold Counter. rewrite Counter_lookup_from, lookup_empty. simpl.
  destruct (count_occ _ values k) as [|c].
  - split; [done | lia].
  - split; [intros [= <-]; lia | intros [-> _]; f_equal; lia].
Qed.

(** [_get_duplicates] is empty exactly on a sequence without repetition. *)
Lemma _get_duplicates_nil (values : list string) :
  _get_duplicates values = [] ↔ NoDup values.
Proof.
  unfold _get_duplicates.
  assert (∀ l : list (string * nat), l.*1 = [] ↔ l = []) as ->
    by (intros l; split; [apply fmap_nil_inv | by intros ->]).
  rewrite map_to_list_empty_iff, map_empty_filter.
  rewrite NoDup_ListNoDup, (NoDup_count_occ String.string_dec). unfold map_Forall. split.
  - intros Hall k. destruct (count_occ String.string_dec values k) as [|c] eqn:Hc; [lia|].
    specialize (Hall k (S c)). rewrite Counter_lookup in Hall. simpl in Hall.
    apply Nat.nlt_ge. apply Hall. split; [done | lia].
  - intros Hle k n [-> _]%Counter_lookup. simpl. specialize (Hle k). lia.
Qed.

Lemma validate_cases args kwargs arg_names allow_missing :
  (validate_args_and_kwargs args kwargs arg_names allow_missing = Ok ()
   ∧ valid_call args kwargs arg_names allow_missing)
  ∨ ((∃ message,
       validate_args_and_kwargs args kwargs arg_names allow_missing = Raise (TypeError message))
     ∧ ¬ valid_call args kwargs arg_names allow_missing).
Proof.
  unfold validate_args_and_kwargs, valid_call.
  case_bool_decide as Hdup.
  { right. split; [eauto|]. intros (Hnd & _). by apply _get_duplicates_nil in Hnd. }
  apply _get_duplicates_nil in Hdup.
  case_bool_decide as Hused.
  { right. split; [eauto|]. intros (_ & Hu & _). apply Hused.
    apply set_eq. intros name. rewrite elem_of_intersection, elem_of_list_to_set.
    split; [intros [? ?]; exfalso; by eapply Hu | set_solver]. }
  case_bool_decide as Hunknown.
  { right. split; [eauto|]. intros (_ & _ & Hk & _). apply Hunknown.
    apply set_eq. intros name. rewrite elem_of_difference, elem_of_list_to_set.
    split; [intros [? ?]; exfalso; auto | set_solver]. }
  destruct allow_missing; simpl.
  { left. split; [done|]. split_and!; [done| | |done].
    - intros name Hn Hd. apply (not_elem_of_empty (C:=gset string) name).
      rewrite <- Hused. set_solver.
    - intros name Hd. destruct (decide (name ∈ arg_names)) as [|Hni]; [done|].
      exfalso. apply (not_elem_of_empty (C:=gset string) name).
      rewrite <- Hunknown. set_solver. }
  case_bool_decide as Hmissing.
  { right. split; [eauto|]. intros (_ & _ & _ & Hm). apply Hmissing.
    apply set_eq. intros name. rewrite elem_of_difference, elem_of_list_to_set.
    split; [intros [? ?]; exfalso; auto | set_solver]. }
  left. split; [done|]. split_and!; [done| | |].
  - intros name Hn Hd. apply (not_elem_of_empty (C:=gset string) name).
    rewrite <- Hused. set_solver.
  - intros name Hd. destruct (decide (name ∈ arg_names)) as [|Hni]; [done|].
    exfalso. apply (not_elem_of_empty (C:=gset string) name).
    rewrite <- Hunknown. set_solver.
  - intros _ name Hn. destruct (decide (name ∈ dom kwargs)) as [|Hni]; [done|].
    exfalso. apply (not_elem_of_empty (C:=gset string) name).
    rewrite <- Hmissing. set_solver.
Qed.

(** ** The constructor *)

Lemma setattr_loop (field_values : list value) (attrs : list string) init :
  foldl (λ d va, <[va.2 := make_immutable va.1]> d) init (zip field_values attrs)
  = py_dict init (zip attrs (make_immutable <$> field_values)).
Proof.
  unfold py_dict. revert attrs init.
  induction field_values as [|v vs IH]; intros [|a attrs] init; simpl; try done.
Qed.

Lemma new_record_slot cls meta fv i attr v :
  NoDup (field_attrs meta) → field_attrs meta !! i = Some attr → fv !! i = Some v →
  __dict__ (new_record cls meta fv) !! attr = Some (make_immutable v).
Proof.
  intros Hnd Ha Hv. simpl. rewrite setattr_loop. apply py_dict_lookup.
  - by apply zip_fst_NoDup.
  - eapply zip_lookup_pair; [done|]. by rewrite list_lookup_fmap, Hv.
Qed.

Lemma new_record_field cls meta fv i name v :
  class_ok cls meta → field_names meta !! i = Some name → fv !! i = Some v →
  field_value (new_record cls meta fv) name = Some (make_immutable v).
Proof.
  intros [Hmeta Hnames Hattrs Hlen] Hn Hv. unfold field_value.
  cbn [__class__ new_record]. rewrite Hmeta.
  destruct (lookup_lt_is_Some_2 (field_attrs meta) i) as [attr Ha].
  { rewrite Hlen. eapply lookup_lt_Some, Hn. }
  unfold field_props. erewrite py_dict_lookup;
    [|by apply zip_fst_NoDup | eapply zip_lookup_pair; eassumption].
  eapply new_record_slot; eassumption.
Qed.

Lemma new_record_no_meta cls meta fv :
  "_meta" ∉ field_attrs meta → __dict__ (new_record cls meta fv) !! "_meta" = None.
Proof.
  intros Hni. cbn [__dict__ new_record]. rewrite setattr_loop.
  apply py_dict_lookup_None. intros Hin. apply Hni.
  eapply elem_of_sublist; [exact Hin | apply zip_fst_sublist].
Qed.

Lemma instance_meta_ok r meta attribute :
  __dict__ r !! "_meta" = None → cls_meta (__class__ r) = Some meta →
  instance_meta r attribute = Ok meta.
Proof. intros Hd Hm. unfold instance_meta. by rewrite Hd, Hm. Qed.

(** No slot of a plain class is called [_meta]. *)
Lemma plain_no_meta_slot cls meta : plain_class cls meta → "_meta" ∉ field_attrs meta.
Proof.
  intros Hplain Hin. apply (plain_slots _ _ Hplain _ Hin).
  apply (plain_bases _ _ Hplain). apply elem_of_union_l. by apply elem_of_singleton.
Qed.

Lemma new_record_iter cls meta fv :
  class_ok cls meta → "_meta" ∉ field_attrs meta → length fv = length (field_names meta) →
  BaseSerializable.__iter__ (new_record cls meta fv) = Ok (make_immutable <$> fv).
Proof.
  intros [Hmeta Hnames Hattrs Hlen] Hslot Hfv. unfold BaseSerializable.__iter__.
  rewrite (instance_meta_ok _ meta) by (by apply new_record_no_meta || done). simpl bind.
  apply mapM_ok, Forall2_same_length_lookup. split; [rewrite length_fmap; lia|].
  intros i attr y Ha Hy. rewrite list_lookup_fmap in Hy.
  destruct (fv !! i) as [v|] eqn:Hv; [|done]. injection Hy as <-.
  unfold getattr_slot. by erewrite new_record_slot.
Qed.

Lemma merge_kwargs_to_args_ok args kwargs arg_names :
  valid_call args kwargs arg_names false →
  ∃ rest, merge_kwargs_to_args args kwargs arg_names false = Ok (args ++ rest)
          ∧ Forall2 (λ name v, kwargs !! name = Some v) (drop (length args) arg_names) rest.
Proof.
  intros Hvalid. unfold merge_kwargs_to_args.
  destruct (validate_cases args kwargs arg_names false) as [[-> _]|[_ Hno]]; [|done].
  simpl bind.
  destruct (mapM_total (getitem_dict kwargs) (drop (length args) arg_names)) as [rest Hrest].
  { apply Forall_forall. intros name Hname. destruct Hvalid as (_ & _ & _ & Hm).
    specialize (Hm eq_refl name Hname). apply elem_of_dom in Hm as [v Hv].
    exists v. unfold getitem_dict. by rewrite Hv. }
  exists rest. rewrite Hrest. split; [done|].
  apply mapM_ok in Hrest. eapply Forall2_impl; [exact Hrest|].
  intros name v. unfold getitem_dict. by destruct (kwargs !! name); intros [= ->].
Qed.

Lemma merge_kwargs_to_args_raise args kwargs arg_names :
  ¬ valid_call args kwargs arg_names false →
  ∃ message, merge_kwargs_to_args args kwargs arg_names false = Raise (TypeError message).
Proof.
  intros Hno. unfold merge_kwargs_to_args.
  destruct (validate_cases args kwargs arg_names false) as [[_ ?]|[[m ->] _]]; [done|].
  eauto.
Qed.

(** What [__init__] returns: the record of the merged field values, or a
    [TypeError]. *)
Lemma init_ok_inv cls meta args kwargs r :
  cls_meta cls = Some meta → BaseSerializable.__init__ cls args kwargs = Ok r →
  ∃ fv, length fv = length (field_names meta) ∧ r = new_record cls meta fv
        ∧ ((kwargs = ∅ ∧ fv = args)
           ∨ (kwargs ≠ ∅ ∧ merge_kwargs_to_args args kwargs (field_names meta) false = Ok fv)).
Proof.
  intros Hmeta. unfold BaseSerializable.__init__, class_meta.
  case_bool_decide as Hself; [done|]. rewrite Hmeta. simpl bind.
  case_bool_decide as Hkw.
  - destruct (merge_kwargs_to_args _ _ _ _) as [fv|e] eqn:Hfv; [|done]. simpl bind.
    case_bool_decide as Hlen; [done|]. intros [= <-]. exists fv. split_and!; [lia|done|by right].
  - simpl bind. case_bool_decide as Hlen; [done|]. intros [= <-].
    exists args. split_and!; [lia|done|left]. split; [|done].
    by destruct (decide (kwargs = ∅)).
Qed.

Lemma init_raises_TypeError cls meta args kwargs e :
  cls_meta cls = Some meta → BaseSerializable.__init__ cls args kwargs = Raise e →
  ∃ message, e = TypeError message.
Proof.
  intros Hmeta. unfold BaseSerializable.__init__, class_meta.
  case_bool_decide as Hself; [intros [= <-]; eauto|]. rewrite Hmeta. simpl bind.
  case_bool_decide as Hkw.
  - destruct (validate_cases args kwargs (field_names meta) false) as [[_ Hv]|[_ Hv]].
    + destruct (merge_kwargs_to_args_ok _ _ _ Hv) as (rest & -> & _). simpl bind.
      case_bool_decide; [intros [= <-]; eauto | done].
    + destruct (merge_kwargs_to_args_raise _ _ _ Hv) as (m & ->). intros [= <-]. eauto.
  - simpl bind. case_bool_decide; [intros [= <-]; eauto | done].
Qed.

(** The field values [__init__] stores, position by position: those the
    call gave positionally or by name. *)
Lemma init_fv cls meta args kwargs r :
  class_ok cls meta → BaseSerializable.__init__ cls args kwargs = Ok r →
  ∃ fv, r = new_record cls meta fv ∧ length fv = length (field_names meta)
        ∧ ∀ i name, field_names meta !! i = Some name →
            fv !! i = argument args kwargs i name.
Proof.
  intros Hok Hinit.
  destruct (init_ok_inv _ _ _ _ _ (ok_meta _ _ Hok) Hinit) as (fv & Hlen & -> & Hfv).
  exists fv. split_and!; [done..|]. intros i name Hname. unfold argument.
  destruct (lookup_lt_is_Some_2 fv i) as [v Hv].
  { rewrite Hlen. eapply lookup_lt_Some, Hname. }
  destruct Hfv as [[-> ->]|[_ Hmerge]]; [by rewrite Hv|].
  destruct (validate_cases args kwargs (field_names meta) false) as [[_ Hvalid]|[_ Hno]].
  - destruct (merge_kwargs_to_args_ok _ _ _ Hvalid) as (rest & Hmerge' & Hrest).
    rewrite Hmerge in Hmerge'. injection Hmerge' as ->.
    destruct (args !! i) as [w|] eqn:Hw.
    + by rewrite (lookup_app_l_Some _ _ _ _ Hw).
    + apply lookup_ge_None in Hw. rewrite Hv. rewrite lookup_app_r in Hv by done.
      symmetry. eapply Forall2_lookup_lr in Hrest; [exact Hrest| |exact Hv].
      rewrite lookup_drop, <- Hname. f_equal. lia.
  - destruct (merge_kwargs_to_args_raise _ _ _ Hno) as (m & Hm). congruence.
Qed.

(** The value a record stores for each field: the projection by
    [make_immutable] of the value the call gave the field. *)
Lemma init_field cls meta args kwargs r i name :
  class_ok cls meta → BaseSerializable.__init__ cls args kwargs = Ok r →
  field_names meta !! i = Some name →
  ∃ v, argument args kwargs i name = Some v
       ∧ field_value r name = Some (make_immutable v).
Proof.
  intros Hok Hinit Hname.
  destruct (init_fv _ _ _ _ _ Hok Hinit) as (fv & -> & Hlen & Hfv).
  destruct (lookup_lt_is_Some_2 fv i) as [v Hv].
  { rewrite Hlen. eapply lookup_lt_Some, Hname. }
  exists v. split; [by rewrite <- (Hfv i name Hname)|]. by eapply new_record_field.
Qed.

(** ** [make_immutable], [_eq] and the immutable projection *)

Lemma py_eq_eq (a b : value) : py_eq a b = true ↔ a = b.
Proof.
  revert b. induction a as [a|l IH|l IH] using value_ind_items; intros [b|r|r]; simpl;
    try (split; [done | intros [=]]).
  - rewrite bool_decide_eq_true. split; congruence.
  - transitivity (l = r); [|split; congruence].
    revert r. induction IH as [|x l Hx _ IHl]; intros [|y r]; try (split; [done | intros [=]]);
      [done|].
    rewrite andb_true_iff, Hx, IHl. split; [intros [-> ->]; done | intros [= -> ->]; done].
  - transitivity (l = r); [|split; congruence].
    revert r. induction IH as [|x l Hx _ IHl]; intros [|y r]; try (split; [done | intros [=]]);
      [done|].
    rewrite andb_true_iff, Hx, IHl. split; [intros [-> ->]; done | intros [= -> ->]; done].
Qed.

(** [_eq] on two sequences: the same length, and [_eq] on the pairs of
    [zip]. *)
Lemma _eq_sequences (l r : list value) :
  _eq (VList l) (VList r) = bool_decide (length l = length r) && forallb (λ p, _eq p.1 p.2) (zip l r)
  ∧ _eq (VList l) (VTuple r) = _eq (VList l) (VList r)
  ∧ _eq (VTuple l) (VList r) = _eq (VList l) (VList r)
  ∧ _eq (VTuple l) (VTuple r) = _eq (VList l) (VList r).
Proof.
  split_and!; try reflexivity. simpl. f_equal.
  revert r. induction l as [|x l IH]; intros [|y r]; simpl; try done. by rewrite IH.
Qed.

Lemma _eq_refl (v : value) : _eq v v = true.
Proof.
  induction v as [a|l IH|l IH] using value_ind_items.
  - simpl. by apply bool_decide_eq_true.
  - destruct (_eq_sequences l l) as (-> & _). rewrite bool_decide_true by done. simpl.
    induction IH as [|x l Hx _ IHl]; simpl; [done|]. by rewrite Hx.
  - destruct (_eq_sequences l l) as (Hll & _ & _ & ->). rewrite Hll, bool_decide_true by done.
    clear Hll. simpl. induction IH as [|x l Hx _ IHl]; simpl; [done|]. by rewrite Hx.
Qed.

(** The projection has the same elements: [_eq] holds between a value and
    its projection. *)
Lemma _eq_make_immutable (v : value) : _eq v (make_immutable v) = true.
Proof.
  induction v as [a|l IH|l IH] using value_ind_items.
  - apply _eq_refl.
  - cbn [make_immutable]. destruct (_eq_sequences l (make_immutable <$> l)) as (Hll & -> & _).
    rewrite Hll, length_fmap, bool_decide_true by done. clear Hll. simpl.
    induction IH as [|x l Hx _ IHl]; simpl; [done|]. by rewrite Hx.
  - apply _eq_refl.
Qed.

Lemma immutable_projection_fixed (v : value) :
  immutable_projection v = v ↔ is_immutable v = true.
Proof.
  induction v as [a|l IH|l IH] using value_ind_items; simpl; [done|split; done|].
  transitivity (immutable_projection <$> l = l); [split; congruence|].
  induction IH as [|x l Hx _ IHl]; simpl; [done|]. split.
  - intros [= Hx' Hl']. apply andb_true_iff. split; [by apply Hx | by apply IHl].
  - intros [Hx' Hl']%andb_true_iff. f_equal; [by apply Hx | by apply IHl].
Qed.



Lemma is_immutable_tuples_immutable (v : value) :
  is_immutable v = true → tuples_immutable v = true.
Proof. by destruct v. Qed.

Lemma make_immutable_projection (v : value) :
  make_immutable v = immutable_projection v ↔ tuples_immutable v = true.
Proof.
  induction v as [a|l IH|l IH] using value_ind_items; simpl; [done| |].
  - transitivity (make_immutable <$> l = immutable_projection <$> l); [split; congruence|].
    induction IH as [|x l Hx _ IHl]; simpl; [done|]. split.
    + intros [= Hx' Hl']. apply andb_true_iff. split; [by apply Hx | by apply IHl].
    + intros [Hx' Hl']%andb_true_iff. f_equal; [by apply Hx | by apply IHl].
  - transitivity (immutable_projection (VTuple l) = VTuple l); [split; simpl; congruence|].
    apply immutable_projection_fixed.
Qed.

Lemma is_immutable_make_immutable (v : value) :
  is_immutable (make_immutable v) = tuples_immutable v.
Proof.
  induction v as [a|l IH|l IH] using value_ind_items; simpl; [done| |done].
  induction IH as [|x l Hx _ IHl]; simpl; [done|]. rewrite Hx. f_equal. exact IHl.
Qed.

Lemma make_immutable_idempotent (v : value) :
  make_immutable (make_immutable v) = make_immutable v.
Proof. by destruct v. Qed.

(** The sample classes have the invariant of their schema. *)
Ltac sample_class_ok :=
  split; [vm_compute; reflexivity
         | apply (bool_decide_unpack _); vm_compute; exact I
         | apply (bool_decide_unpack _); vm_compute; exact I
         | vm_compute; reflexivity].

Lemma Box_ok : class_ok Box (the_meta Box).
Proof. sample_class_ok. Defined.

Lemma Point_ok : class_ok Point (the_meta Point).
Proof. sample_class_ok. Defined.


Lemma Triple_ok : class_ok Triple (the_meta Triple).
Proof. sample_class_ok. Defined.

Ltac sample_forall :=
  let n := fresh "n" in let Hn := fresh "Hn" in
  intros n Hn; revert n Hn; apply (proj1 (Forall_forall _ _));
  apply (bool_decide_unpack _); vm_compute; exact I.

Ltac sample_class_plain :=
  split; [sample_forall | sample_forall
         | apply (bool_decide_unpack _); vm_compute; exact I
         | sample_forall | sample_forall
         | apply (bool_decide_unpack _); vm_compute; exact I].

Lemma Box_plain : plain_class Box (the_meta Box).
Proof. sample_class_plain. Defined.

Lemma Point_plain : plain_class Point (the_meta Point).
Proof. sample_class_plain. Defined.


Lemma Triple_plain : plain_class Triple (the_meta Triple).
Proof. sample_class_plain. Defined.

(* ===================================================================== *)
(** ** Immutable projection at construction (C7, C10) *)
(* ===================================================================== *)

(** C10.  The projection applied at construction converts only lists: a
    value that is no list (a tuple in particular) is returned unchanged,
    without a look at its items; so a field given a tuple stores that very
    tuple, and the lists among its items stay lists. *)
Theorem make_immutable_converts_only_lists cls meta args kwargs r i name items :
  class_ok cls meta →
  BaseSerializable.__init__ cls args kwargs = Ok r →
  field_names meta !! i = Some name →
  argument args kwargs i name = Some (VTuple items) →
  make_immutable (VTuple items) = VTuple items
  ∧ field_value r name = Some (VTuple items)
  ∧ (∀ v, (∀ l, v ≠ VList l) → make_immutable v = v)
  ∧ (∀ l, make_immutable (VList l) = VTuple (make_immutable <$> l)).
Proof.
  intros Hok Hinit Hname Harg. split_and!.
  - reflexivity.
  - destruct (init_field _ _ _ _ _ _ _ Hok Hinit Hname) as (v & Hv & Hstored).
    rewrite Harg in Hv. injection Hv as <-. exact Hstored.
  - intros [a|l|l] Hv; [reflexivity | by destruct (Hv l) | reflexivity].
  - reflexivity.
Qed.

Lemma make_immutable_converts_only_lists_witness :
  ∃ r, BaseSerializable.__init__ Box [VTuple [VList [int 1]; int 2]] ∅ = Ok r
       ∧ field_value r "items" = Some (VTuple [VList [int 1]; int 2]).
Proof.
  assert (BaseSerializable.__init__ Box [VTuple [VList [int 1]; int 2]] ∅
          = Ok (new_record Box (the_meta Box) [VTuple [VList [int 1]; int 2]])) as Hinit
    by (vm_compute; reflexivity).
  exists (new_record Box (the_meta Box) [VTuple [VList [int 1]; int 2]]).
  split; [exact Hinit|].
  exact (proj1 (proj2 (make_immutable_converts_only_lists Box (the_meta Box)
            [VTuple [VList [int 1]; int 2]] ∅ _ 0 "items" [VList [int 1]; int 2]
            Box_ok Hinit eq_refl eq_refl))).
Defined.

(** C7, as stated, fails: a record built with the tuple [([1],)] stores the
    tuple with its inner list, which is not the recursive immutable
    projection [((1,),)] of the value. *)
Lemma immutable_projection_counterexample :
  ∃ r, BaseSerializable.__init__ Box [VTuple [VList [int 1]]] ∅ = Ok r
       ∧ field_value r "items" = Some (VTuple [VList [int 1]])
       ∧ immutable_projection (VTuple [VList [int 1]]) = VTuple [VTuple [int 1]]
       ∧ is_immutable (VTuple [VList [int 1]]) = false.
Proof.
  exists (new_record Box (the_meta Box) [VTuple [VList [int 1]]]).
  split_and!; vm_compute; reflexivity.
Qed.

(** C7, amended.  Each stored field value is [make_immutable] of the value
    passed in, positionally or by name: a list becomes the tuple of the
    projections of its items, with the same elements ([_eq] holds between
    the two), and any other value is stored as it is.  The stored value is
    the recursive immutable projection, and holds no list, exactly when no
    tuple of the value passed in holds a list. *)
Theorem init_stores_make_immutable cls meta args kwargs r i name :
  class_ok cls meta →
  BaseSerializable.__init__ cls args kwargs = Ok r →
  field_names meta !! i = Some name →
  ∃ v, argument args kwargs i name = Some v
       ∧ field_value r name = Some (make_immutable v)
       ∧ _eq v (make_immutable v) = true
       ∧ (make_immutable v = immutable_projection v ↔ tuples_immutable v = true)
       ∧ is_immutable (make_immutable v) = tuples_immutable v.
Proof.
  intros Hok Hinit Hname.
  destruct (init_field _ _ _ _ _ _ _ Hok Hinit Hname) as (v & Hv & Hstored).
  exists v. split_and!; [done | done | | |].
  - apply _eq_make_immutable.
  - apply make_immutable_projection.
  - apply is_immutable_make_immutable.
Qed.

Lemma init_stores_make_immutable_witness :
  ∃ r, BaseSerializable.__init__ Point [int 1] {["y" := VList [VList [int 2]; int 3]]} = Ok r
       ∧ field_value r "y" = Some (VTuple [VTuple [int 2]; int 3]).
Proof.
  assert (BaseSerializable.__init__ Point [int 1] {["y" := VList [VList [int 2]; int 3]]}
          = Ok (new_record Point (the_meta Point) [int 1; VList [VList [int 2]; int 3]]))
    as Hinit by (vm_compute; reflexivity).
  exists (new_record Point (the_meta Point) [int 1; VList [VList [int 2]; int 3]]).
  split; [exact Hinit|].
  destruct (init_stores_make_immutable Point (the_meta Point)
              [int 1] {["y" := VList [VList [int 2]; int 3]]} _ 1 "y" Point_ok
              Hinit eq_refl) as (v & Hv & Hstored & _).
  assert (v = VList [VList [int 2]; int 3]) as ->
    by (vm_compute in Hv; injection Hv as <-; reflexivity).
  exact Hstored.
Defined.

(* ===================================================================== *)
(** ** Construction: the argument checks (C8) *)
(* ===================================================================== *)



Lemma complete_call_valid args kwargs arg_names :
  NoDup arg_names →
  dom kwargs = list_to_set (drop (length args) arg_names) →
  valid_call args kwargs arg_names false.
Proof.
  intros Hnd Hdom. split_and!; [done| | |].
  - intros name Htake. rewrite Hdom, elem_of_list_to_set. intros Hdrop.
    rewrite <- (take_drop (length args) arg_names) in Hnd.
    apply NoDup_app in Hnd as (_ & Hdisj & _). by apply (Hdisj name).
  - intros name. rewrite Hdom, elem_of_list_to_set. intros Hdrop.
    rewrite <- (take_drop (length args) arg_names). apply elem_of_app. by right.
  - intros _ name Hdrop. by rewrite Hdom, elem_of_list_to_set.
Qed.

Lemma init_complete cls meta args kwargs :
  class_ok cls meta → "self" ∉ dom kwargs →
  (length args ≤ length (field_names meta))%nat →
  dom kwargs = list_to_set (drop (length args) (field_names meta)) →
  ∃ fv, BaseSerializable.__init__ cls args kwargs = Ok (new_record cls meta fv)
        ∧ length fv = length (field_names meta).
Proof.
  intros Hok Hself Hlen Hdom. pose proof (ok_meta _ _ Hok) as Hmeta.
  unfold BaseSerializable.__init__, class_meta.
  rewrite bool_decide_false by done. rewrite Hmeta. simpl bind.
  case_bool_decide as Hkw.
  - pose proof (complete_call_valid args kwargs _ (ok_names _ _ Hok) Hdom) as Hvalid.
    destruct (merge_kwargs_to_args_ok _ _ _ Hvalid) as (rest & -> & Hrest). simpl bind.
    apply Forall2_length in Hrest. rewrite length_drop in Hrest.
    assert (length (args ++ rest) = length (field_names meta)) as Hfv
      by (rewrite length_app; lia).
    rewrite bool_decide_false by (intros Hne; by apply Hne).
    exists (args ++ rest). done.
  - assert (kwargs = ∅) as -> by (by destruct (decide (kwargs = ∅))).
    rewrite dom_empty_L in Hdom. symmetry in Hdom.
    apply list_to_set_empty_nil in Hdom. simpl bind.
    assert (length args = length (field_names meta)) as Hfv.
    { apply (f_equal length) in Hdom. rewrite length_drop in Hdom. simpl in Hdom. lia. }
    rewrite bool_decide_false by (intros Hne; by apply Hne).
    exists args. done.
Qed.




(* ===================================================================== *)
(** ** Hashing and equality (C9, C1, C2) *)
(* ===================================================================== *)

Section hashing_facts.
Context `{PyHash}.

Lemma hash_cases (v : value) :
  (∃ h, hash v = Ok h ∧ is_immutable v = true)
  ∨ (hash v = Raise (TypeError "unhashable type: 'list'") ∧ is_immutable v = false).
Proof.
  induction v as [a|l IH|l IH] using value_ind_items; simpl; [left; eauto | right; done |].
  induction IH as [|x l Hx _ IHl]; simpl; [left; eauto|].
  destruct Hx as [(h & -> & ->)|[-> ->]]; [|right; done]. simpl.
  destruct IHl as [(hs & Hhs & ->)|[Hhs ->]].
  - destruct (mapM hash l) as [ys|e]; [|done]. simpl. left. eauto.
  - destruct (mapM hash l) as [ys|e]; [done|]. simpl. right. split; [|done].
    simpl in Hhs. congruence.
Qed.


Lemma hash_ok_immutable (v : value) h : hash v = Ok h → is_immutable v = true.
Proof. intros Hv. destruct (hash_cases v) as [(? & _ & ?)|[? _]]; [done | congruence]. Qed.

(** What holds of every record of a class: its slots hold the projections of
    the constructor's field values, and a cache that is set holds the hash
    of the tuple of those. *)
Lemma record_of_inv cls meta r :
  class_ok cls meta → plain_class cls meta → record_of cls r →
  ∃ fv, __class__ r = cls ∧ __dict__ r = __dict__ (new_record cls meta fv)
        ∧ length fv = length (field_names meta)
        ∧ BaseSerializable.__iter__ r = Ok (make_immutable <$> fv)
        ∧ ∀ h, _hash_cache r = Some h → hash (VTuple (make_immutable <$> fv)) = Ok h.
Proof.
  intros Hok Hplain. induction 1 as [args kwargs r Hinit|r h r' _ IH Hhash].
  - destruct (init_fv _ _ _ _ _ Hok Hinit) as (fv & -> & Hlen & _).
    exists fv. split_and!; [done | done | done | | done].
    apply new_record_iter; [done | by eapply plain_no_meta_slot | done].
  - destruct IH as (fv & Hcls & Hdict & Hlen & Hiter & Hcache). exists fv.
    unfold BaseSerializable.__hash__ in Hhash.
    destruct (_hash_cache r) as [h0|] eqn:Hc.
    + injection Hhash as <- <-. rewrite Hc. done.
    + rewrite Hiter in Hhash. cbn [bind] in Hhash.
      destruct (hash (VTuple (make_immutable <$> fv))) as [h'|e] eqn:Hh; [|done].
      injection Hhash as <- <-. split_and!; [done | done | done | | by intros ? [= <-]].
      rewrite <- Hiter. reflexivity.
Qed.



End hashing_facts.



Section equality_facts.
Context `{PyHash}.



End equality_facts.









(* ===================================================================== *)
(** ** Changesets (C4, C5) *)
(* ===================================================================== *)

Lemma mapM_fmap {A B} (f : A → result B) (g : A → B) l :
  (∀ x, x ∈ l → f x = Ok (g x)) → mapM f l = Ok (g <$> l).
Proof.
  induction l as [|x l IH]; intros Hf; [done|]. simpl.
  rewrite (Hf x) by apply list_elem_of_here. simpl.
  rewrite IH by (intros y Hy; apply Hf; by apply list_elem_of_further). done.
Qed.

(** Reading a field of a record, as [getattr(r, name)] and [r[name]] do. *)
Lemma getattr_field_value r name v :
  field_value r name = Some v → getattr r name = Ok v.
Proof.
  unfold field_value, getattr, class_meta, getattr_slot.
  destruct (cls_meta (__class__ r)) as [meta|]; [|done]. cbn [bind].
  destruct (field_props meta !! name) as [attr|]; [|done]. by intros ->.
Qed.

Section changeset_facts.
Context `{PyHash}.

(** The record of a plain class has no instance attribute [_meta]. *)
Lemma record_instance_meta cls meta r attribute :
  class_ok cls meta → plain_class cls meta → record_of cls r →
  instance_meta r attribute = Ok meta.
Proof.
  intros Hok Hplain Hr.
  destruct (record_of_inv _ _ _ Hok Hplain Hr) as (fv & Hcls & Hdict & _).
  apply instance_meta_ok; [|by rewrite Hcls; apply (ok_meta _ _ Hok)].
  rewrite Hdict. by apply new_record_no_meta, (plain_no_meta_slot cls).
Qed.

(** Every field of a record has a stored value, which the projection
    leaves as it is. *)
Lemma record_field cls meta r name :
  class_ok cls meta → plain_class cls meta → record_of cls r → name ∈ field_names meta →
  ∃ v, field_value r name = Some v ∧ make_immutable v = v.
Proof.
  intros Hok Hplain Hr Hin. apply list_elem_of_lookup in Hin as [i Hname].
  destruct (record_of_inv _ _ _ Hok Hplain Hr) as (fv & Hcls & Hdict & Hlen & _).
  destruct (lookup_lt_is_Some_2 fv i) as [w Hw].
  { rewrite Hlen. eapply lookup_lt_Some, Hname. }
  exists (make_immutable w). split; [|apply make_immutable_idempotent].
  rewrite <- (new_record_field cls meta fv i name w Hok Hname Hw).
  unfold field_value. by rewrite Hcls, Hdict.
Qed.

(** A method of [BaseChangeset] whose name is no field name is the one
    found and called. *)
Lemma call_method_free {A} cls meta cs method (body : result A) :
  class_ok cls meta → plain_class cls meta → record_of cls (__original__ cs) →
  method ∉ field_names meta →
  BaseChangeset.call_method cs method body = body.
Proof.
  intros Hok Hplain Hr Hfree.
  destruct (record_of_inv _ _ _ Hok Hplain Hr) as (fv & Hcls & _).
  unfold BaseChangeset.call_method, changeset_fields.
  rewrite Hcls, (ok_meta _ _ Hok). by rewrite bool_decide_false.
Qed.

(** The value [build_rlp] hands the constructor for a field: the staged
    value if there is one, the value of the original record otherwise. *)
Lemma build_rlp_open cls meta cs :
  class_ok cls meta → plain_class cls meta → record_of cls (__original__ cs) →
  "self" ∉ field_names meta → __state__ cs = OPEN →
  ∃ kwargs obj,
    BaseChangeset.build_rlp cs = Ok obj
    ∧ BaseSerializable.__init__ cls [] kwargs = Ok obj
    ∧ dom kwargs = list_to_set (field_names meta)
    ∧ ∀ name, name ∈ field_names meta →
        ∃ v, kwargs !! name = Some v
             ∧ field_value obj name = Some (make_immutable v)
             ∧ match __diff__ cs !! name with
               | Some staged => v = staged
               | None => field_value (__original__ cs) name = Some v
               end.
Proof.
  intros Hok Hplain Hr Hself Hopen.
  destruct (record_of_inv _ _ _ Hok Hplain Hr) as (fv0 & Hcls & _).
  set (g := λ name, (name, default (default (VAtom ANone) (field_value (__original__ cs) name))
                             (__diff__ cs !! name))).
  set (kwargs := py_dict ∅ (g <$> field_names meta)).
  assert ((g <$> field_names meta).*1 = field_names meta) as Hkeys.
  { rewrite <- list_fmap_compose. apply list_fmap_id. }
  assert (dom kwargs = list_to_set (field_names meta)) as Hdom.
  { unfold kwargs. by rewrite py_dict_dom, Hkeys. }
  destruct (init_complete cls meta [] kwargs Hok) as (fv & Hinit & Hlen);
    [by rewrite Hdom, elem_of_list_to_set | simpl; lia | done |].
  exists kwargs, (new_record cls meta fv). split_and!; [|done|done|].
  - unfold BaseChangeset.build_rlp. rewrite bool_decide_true by done.
    rewrite (record_instance_meta _ _ _ _ Hok Hplain Hr). cbn [bind].
    rewrite (mapM_fmap _ g); [by rewrite Hcls|].
    intros name Hin. destruct (record_field _ _ _ name Hok Hplain Hr Hin) as (v & Hv & _).
    unfold BaseSerializable.__getitem__. rewrite (getattr_field_value _ _ _ Hv).
    cbn [bind]. unfold g. by rewrite Hv.
  - intros name Hin. pose proof Hin as Hin'. apply list_elem_of_lookup in Hin' as [i Hname].
    destruct (init_field _ _ _ _ _ i name Hok Hinit Hname) as (v & Harg & Hstored).
    unfold argument in Harg. rewrite lookup_nil in Harg.
    exists v. split_and!; [done | done |].
    assert (kwargs !! name = Some (g name).2) as Hlook.
    { apply py_dict_lookup; [by rewrite Hkeys; apply (ok_names _ _ Hok)|].
      apply list_elem_of_fmap. exists name. done. }
    rewrite Harg in Hlook. injection Hlook as ->. unfold g. simpl.
    destruct (__diff__ cs !! name) as [staged|]; [done|]. simpl.
    destruct (record_field _ _ _ name Hok Hplain Hr Hin) as (v & -> & _). done.
Qed.

End changeset_facts.


Lemma Point_names_free : changeset_names_free (the_meta Point).
Proof. apply (bool_decide_unpack _). vm_compute. exact I. Defined.




(* ===================================================================== *)
(** ** Schema construction: the fields of the parents (C6) *)
(* ===================================================================== *)

Lemma elem_of_parent_field_names bases n :
  n ∈ parent_field_names_of (serializable_bases_of bases)
  ↔ ∃ base, base ∈ bases ∧ cls_is_serializable base = true ∧ n ∈ meta_field_names base.
Proof.
  unfold parent_field_names_of, serializable_bases_of.
  rewrite elem_of_list_to_set, list_elem_of_bind. split.
  - intros (base & Hn & Hbase). apply list_elem_of_filter in Hbase as [_ Hbase].
    apply list_elem_of_filter in Hbase as [Hser Hbase]. eauto.
  - intros (base & Hbase & Hser & Hn). exists base. split; [done|].
    apply list_elem_of_filter. split; [|by apply list_elem_of_filter].
    unfold has_meta. unfold meta_field_names in Hn.
    destruct (cls_meta base); [by eexists | by apply elem_of_nil in Hn].
Qed.

Section new_facts.
Context `{Interpreter}.

Lemma invalid_names_empty (names : list string) :
  (list_to_set (filter (λ name, _is_valid_identifier name = false) names) : gset string) = ∅
  ↔ Forall (λ name, _is_valid_identifier name = true) names.
Proof.
  rewrite list_to_set_empty_nil, Forall_forall. split.
  - intros Hnil name Hin. destruct (_is_valid_identifier name) eqn:Hv; [done|].
    assert (name ∈ filter (λ name, _is_valid_identifier name = false) names) as Hf
      by (by apply list_elem_of_filter).
    rewrite Hnil in Hf. by apply elem_of_nil in Hf.
  - intros Hall. destruct (filter _ names) as [|name l] eqn:Hf; [done|].
    assert (name ∈ filter (λ name, _is_valid_identifier name = false) names) as Hin
      by (rewrite Hf; apply list_elem_of_here).
    apply list_elem_of_filter in Hin as [Hno Hin]. rewrite (Hall name Hin) in Hno. done.
Qed.

(** The four ways [__new__] ends for a subclass that declares its fields:
    with one of its three errors, or with the creation of the class. *)
Lemma new_declared_cases name bases declared attrs_keys :
  serializable_bases_of bases ≠ [] →
  (¬ NoDup declared.*1
   ∧ ∃ message, SerializableBase.__new__ name bases (Some declared) attrs_keys
                = Raise (TypeError message))
  ∨ (NoDup declared.*1 ∧ ¬ Forall (λ n, _is_valid_identifier n = true) declared.*1
     ∧ ∃ message, SerializableBase.__new__ name bases (Some declared) attrs_keys
                  = Raise (TypeError message))
  ∨ (NoDup declared.*1 ∧ Forall (λ n, _is_valid_identifier n = true) declared.*1
     ∧ parent_field_names_of (serializable_bases_of bases) ∖ list_to_set declared.*1 ≠ ∅
     ∧ SerializableBase.__new__ name bases (Some declared) attrs_keys
       = Raise (TypeError (missing_fields_message +:+ join ","
           (sorted (elements (parent_field_names_of (serializable_bases_of bases)
                              ∖ list_to_set declared.*1))))))
  ∨ (NoDup declared.*1 ∧ Forall (λ n, _is_valid_identifier n = true) declared.*1
     ∧ parent_field_names_of (serializable_bases_of bases) ∖ list_to_set declared.*1 = ∅
     ∧ match super_new name bases declared.*1 (attrs_keys ∪ {["_meta"]}) with
       | Ok added =>
           ∃ cls, SerializableBase.__new__ name bases (Some declared) attrs_keys = Ok cls
                  ∧ meta_field_names cls = declared.*1
                  ∧ cls_is_serializable cls = true ∧ has_meta cls
       | Raise e => SerializableBase.__new__ name bases (Some declared) attrs_keys = Raise e
       end).
Proof.
  intros Hsub. unfold SerializableBase.__new__. cbv zeta.
  rewrite (bool_decide_true (serializable_bases_of bases ≠ [])) by done.
  cbn [negb]. cbn [bind].
  case_bool_decide as Hdup.
  { left. split; [|eauto]. intros Hnd. by apply _get_duplicates_nil in Hnd. }
  apply _get_duplicates_nil in Hdup. right.
  case_bool_decide as Hinvalid.
  { left. split_and!; [done| |eauto]. intros Hall. by apply invalid_names_empty in Hall. }
  apply invalid_names_empty in Hinvalid. right.
  case_bool_decide as Hmissing.
  { left. done. }
  right. split_and!; [done..|].
  destruct (super_new name bases declared.*1 (attrs_keys ∪ {["_meta"]})) as [added|e];
    [|done].
  cbn [bind]. eexists. split; [reflexivity|].
  split_and!; [done | done | by eexists].
Qed.

End new_facts.

(** C6, as stated, fails: a subclass of [Point] that declares exactly the
    fields of [Point] is created, and its field-name set is equal to the
    parent's, so no strict superset of it. *)
Lemma strict_superset_counterexample :
  ∃ cls, @SerializableBase.__new__ sample_interpreter "Point2" [Point]
           (Some [("x", raw); ("y", raw)]) class_statement = Ok cls
    ∧ serializable_bases_of [Point] = [Point]
    ∧ meta_field_names Point = ["x"; "y"]
    ∧ meta_field_names cls = ["x"; "y"]
    ∧ ¬ ((list_to_set (meta_field_names Point) : gset string)
           ⊂ list_to_set ([("x", raw); ("y", raw)].*1)).
Proof.
  eexists. split; [vm_compute; reflexivity|].
  split_and!; [vm_compute; reflexivity..|].
  intros [_ Hstrict]. apply Hstrict. vm_compute. set_solver.
Qed.

(** C6, amended.  For a subclass of Serializable classes that declares its
    own fields, class creation succeeds only if every field name of every
    parent schema is among the declared names (a superset, which may be the
    parent's set itself); a declaration that omits a parent field raises a
    [TypeError] from [__new__] itself, so no class exists whose construction
    could meet the omission, and when the declared names are unique valid
    identifiers that error lists, sorted, exactly the parent names left out;
    with unique valid names that include every parent field [__new__]
    raises none of its errors, and the class is created if the creation of
    the class itself, by [abc.ABCMeta.__new__], succeeds. *)
Theorem new_requires_parent_fields `{Interpreter} name bases declared attrs_keys :
  serializable_bases_of bases ≠ [] →
  (∀ cls, SerializableBase.__new__ name bases (Some declared) attrs_keys = Ok cls →
     ∀ base n, base ∈ bases → cls_is_serializable base = true →
       n ∈ meta_field_names base → n ∈ declared.*1)
  ∧ (∀ base n, base ∈ bases → cls_is_serializable base = true →
       n ∈ meta_field_names base → n ∉ declared.*1 →
       (∃ message, SerializableBase.__new__ name bases (Some declared) attrs_keys
                   = Raise (TypeError message))
       ∧ (NoDup declared.*1 → Forall (λ x, _is_valid_identifier x = true) declared.*1 →
          ∃ missing,
            SerializableBase.__new__ name bases (Some declared) attrs_keys
            = Raise (TypeError (missing_fields_message +:+ join "," (sorted missing)))
            ∧ ∀ m, m ∈ sorted missing
                   ↔ (m ∉ declared.*1)
                     ∧ ∃ base', base' ∈ bases ∧ cls_is_serializable base' = true
                                ∧ m ∈ meta_field_names base'))
  ∧ (NoDup declared.*1 → Forall (λ x, _is_valid_identifier x = true) declared.*1 →
     (∀ base n, base ∈ bases → cls_is_serializable base = true →
        n ∈ meta_field_names base → n ∈ declared.*1) →
     (∀ added, super_new name bases declared.*1 (attrs_keys ∪ {["_meta"]}) = Ok added →
        ∃ cls, SerializableBase.__new__ name bases (Some declared) attrs_keys = Ok cls
               ∧ meta_field_names cls = declared.*1)
     ∧ (∀ e, super_new name bases declared.*1 (attrs_keys ∪ {["_meta"]}) = Raise e →
          SerializableBase.__new__ name bases (Some declared) attrs_keys = Raise e)).
Proof.
  intros Hsub.
  assert (∀ base n, base ∈ bases → cls_is_serializable base = true →
            n ∈ meta_field_names base → n ∉ declared.*1 →
            parent_field_names_of (serializable_bases_of bases) ∖ list_to_set declared.*1
            ≠ (∅ : gset string)) as Hmiss.
  { intros base n Hb Hs Hn Hd Hempty.
    apply (not_elem_of_empty (C:=gset string) n). rewrite <- Hempty.
    apply elem_of_difference. split; [|by rewrite elem_of_list_to_set].
    apply elem_of_parent_field_names. eauto. }
  destruct (new_declared_cases name bases declared attrs_keys Hsub)
    as [(Hnd & m & Hnew)|[(Hnd & Hv & m & Hnew)|[(Hnd & Hv & Hm & Hnew)|(Hnd & Hv & Hm & Hnew)]]].
  - rewrite Hnew. split_and!; [done | eauto | done].
    intros base n Hb Hs Hn Hd. split; [eauto|done].
  - rewrite Hnew. split_and!; [done | | done].
    intros base n Hb Hs Hn Hd. split; [eauto|done].
  - rewrite Hnew. split_and!; [done | |].
    + intros base n Hb Hs Hn Hd. split; [eauto|].
      intros _ _. eexists. split; [reflexivity|]. intros m'. unfold sorted.
      rewrite merge_sort_Permutation, elem_of_elements, elem_of_difference,
        elem_of_list_to_set, elem_of_parent_field_names. tauto.
    + intros _ _ Hall. destruct Hm. apply set_eq. intros n.
      rewrite elem_of_difference, elem_of_list_to_set, elem_of_parent_field_names.
      split; [|by intros ?%not_elem_of_empty].
      intros [(base & Hb & Hs & Hn) Hd]. destruct Hd. eauto.
  - split_and!.
    + intros cls0 _ base n Hb Hs Hn. destruct (decide (n ∈ declared.*1)) as [|Hd]; [done|].
      by destruct (Hmiss base n Hb Hs Hn Hd).
    + intros base n Hb Hs Hn Hd. by destruct (Hmiss base n Hb Hs Hn Hd).
    + intros _ _ _. split.
      * intros added Hadded. rewrite Hadded in Hnew.
        destruct Hnew as (cls & Hcls & Hnames & _). eauto.
      * intros e He. by rewrite He in Hnew.
Qed.

Lemma new_requires_parent_fields_witness :
  (∃ message, @SerializableBase.__new__ sample_interpreter "Line" [Point]
                (Some [("x", raw); ("z", raw)]) class_statement
              = Raise (TypeError message))
  ∧ @SerializableBase.__new__ sample_interpreter "Line" [Point]
      (Some [("x", raw); ("z", raw)]) class_statement
    = Raise (TypeError (missing_fields_message +:+ "y"))
  ∧ (∃ cls, @SerializableBase.__new__ sample_interpreter "Point3" [Point]
              (Some [("x", raw); ("y", raw); ("z", raw)]) class_statement = Ok cls
            ∧ meta_field_names cls = ["x"; "y"; "z"]).
Proof.
  assert (serializable_bases_of [Point] ≠ []) as Hsub by (vm_compute; discriminate).
  split_and!.
  - destruct (@new_requires_parent_fields sample_interpreter "Line" [Point]
                [("x", raw); ("z", raw)] class_statement Hsub)
      as (_ & Hmissing & _).
    apply (Hmissing Point "y").
    + apply list_elem_of_here.
    + vm_compute; reflexivity.
    + apply (bool_decide_unpack _). vm_compute. exact I.
    + apply (bool_decide_unpack _). vm_compute. exact I.
  - vm_compute. reflexivity.
  - destruct (@new_requires_parent_fields sample_interpreter "Point3" [Point]
                [("x", raw); ("y", raw); ("z", raw)] class_statement Hsub) as (_ & _ & Hcreate).
    destruct Hcreate as [Hcreate _].
    + apply (bool_decide_unpack _). vm_compute. exact I.
    + repeat constructor.
    + intros base n Hb _ Hn. apply list_elem_of_singleton in Hb as ->.
      change (meta_field_names Point) with ["x"; "y"] in Hn.
      change ([("x", raw); ("y", raw); ("z", raw)].*1) with (["x"; "y"] ++ ["z"]).
      apply elem_of_app. by left.
    + eapply Hcreate. vm_compute. reflexivity.
Defined.

(* ===================================================================== *)
(** ** Serialization errors and the field they name (C3) *)
(* ===================================================================== *)

Lemma py_index_nat {A} (seq : list A) (i : nat) x :
  seq !! i = Some x → py_index seq (Z.of_nat i) = Ok x.
Proof.
  intros Hx. pose proof (lookup_lt_Some _ _ _ Hx) as Hlt. unfold py_index.
  destruct (Z.ltb_spec (Z.of_nat i) 0) as [?|_]; [lia|].
  destruct (Z.ltb_spec (Z.of_nat i) 0) as [?|_]; [lia|].
  destruct (Z.leb_spec (Z.of_nat (length seq)) (Z.of_nat i)) as [?|_]; [lia|].
  simpl. by rewrite Nat2Z.id, Hx.
Qed.

(** The list sedes stops at the first position whose sedes fails, with the
    list error that carries the position and the cause. *)
Lemma serialize_elements_fails obj k elements values i s v e :
  elements !! i = Some s → values !! i = Some v →
  sedes_serialize s (OValue v) = Raise e →
  (∀ j s' v', (j < i)%nat → elements !! j = Some s' → values !! j = Some v' →
     ∃ x, sedes_serialize s' (OValue v') = Ok x) →
  serialize_elements obj k elements values
  = Raise (ListSerializationError
             ("Serialization failed because of element at index "
              +:+ str_of_Z (Z.of_nat (k + i)) +:+ " (" +:+ dquote +:+ exn_str e +:+ dquote +:+ ")")
             (Some obj) (Some e) (Some (Z.of_nat (k + i)))).
Proof.
  revert k elements values. induction i as [|i IH]; intros k [|s0 elements] [|v0 values];
    try done; intros Hs Hv Hfail Hbefore.
  - injection Hs as ->. injection Hv as ->. cbn [serialize_elements]. rewrite Hfail.
    by rewrite Nat.add_0_r.
  - cbn [serialize_elements]. destruct (Hbefore 0%nat s0 v0) as [x ->]; [lia | done | done |].
    replace (k + S i)%nat with (S k + i)%nat by lia.
    rewrite (IH (S k) elements values); [reflexivity | done | done | done |].
    intros j s' v' Hj Hs' Hv'. apply (Hbefore (S j) s' v'); [lia | done | done].
Qed.

(** C3.  When the list sedes of the schema fails in [cls.serialize(obj)],
    the error raised is an [ObjectSerializationError].  If the list error
    carries the failing element (its exception and its index), the [field]
    of the record error is the name at that index of the declaration order
    of the schema; with the list sedes of the schema this is the field
    whose sedes failed first.  If the list error carries neither (a list
    that fails as a whole, as on a wrong number of values), the [field] is
    [None] and the message is the one of the underlying list. *)
Theorem serialize_error_names_field cls meta obj o :
  cls_meta cls = Some meta → BaseSerializable.as_pyobj obj = Ok o →
  (∀ lmsg lobj e i name,
     sedes_serialize (sedes meta) o
     = Raise (ListSerializationError lmsg lobj (Some e) (Some (Z.of_nat i))) →
     field_names meta !! i = Some name →
     BaseSerializable.serialize cls obj
     = Raise (ObjectSerializationError
                ("Serialization failed because of field " +:+ name
                 +:+ " (" +:+ dquote +:+ exn_str e +:+ dquote +:+ ")")
                (Some o) (Some name)
                (Some (ListSerializationError lmsg lobj (Some e) (Some (Z.of_nat i))))))
  ∧ (∀ lmsg lobj,
     sedes_serialize (sedes meta) o = Raise (ListSerializationError lmsg lobj None None) →
     BaseSerializable.serialize cls obj
     = Raise (ObjectSerializationError
                ("Serialization failed because of underlying list ("
                 +:+ dquote +:+ lmsg +:+ dquote +:+ ")")
                (Some o) None (Some (ListSerializationError lmsg lobj None None))))
  ∧ (sedes meta = ListSedes (fields meta).*2 → field_names meta = (fields meta).*1 →
     ∀ values,
       pyobj_items o = Some values →
       (length values ≠ length (fields meta) →
          ∃ message list_exception,
            BaseSerializable.serialize cls obj
            = Raise (ObjectSerializationError message (Some o) None (Some list_exception)))
       ∧ (∀ i s v e,
            length values = length (fields meta) →
            (fields meta).*2 !! i = Some s → values !! i = Some v →
            sedes_serialize s (OValue v) = Raise e →
            (∀ j s' v', (j < i)%nat → (fields meta).*2 !! j = Some s' → values !! j = Some v' →
               ∃ x, sedes_serialize s' (OValue v') = Ok x) →
            ∃ name message lmsg,
              field_names meta !! i = Some name
              ∧ BaseSerializable.serialize cls obj
                = Raise (ObjectSerializationError message (Some o) (Some name)
                           (Some (ListSerializationError lmsg (Some o) (Some e)
                                    (Some (Z.of_nat i))))))).
Proof.
  intros Hmeta Ho.
  assert (∀ lmsg lobj e i name,
     sedes_serialize (sedes meta) o
     = Raise (ListSerializationError lmsg lobj (Some e) (Some (Z.of_nat i))) →
     field_names meta !! i = Some name →
     BaseSerializable.serialize cls obj
     = Raise (ObjectSerializationError
                ("Serialization failed because of field " +:+ name
                 +:+ " (" +:+ dquote +:+ exn_str e +:+ dquote +:+ ")")
                (Some o) (Some name)
                (Some (ListSerializationError lmsg lobj (Some e) (Some (Z.of_nat i))))))
    as Hfield.
  { intros lmsg lobj e i name Hfail Hname.
    unfold BaseSerializable.serialize, class_meta. rewrite Hmeta. cbn [bind].
    rewrite Ho. cbn [bind]. rewrite Hfail.
    unfold ObjectSerializationError__init__, class_meta. rewrite Hmeta. cbn [bind].
    by rewrite (py_index_nat _ _ _ Hname). }
  assert (∀ lmsg lobj,
     sedes_serialize (sedes meta) o = Raise (ListSerializationError lmsg lobj None None) →
     BaseSerializable.serialize cls obj
     = Raise (ObjectSerializationError
                ("Serialization failed because of underlying list ("
                 +:+ dquote +:+ lmsg +:+ dquote +:+ ")")
                (Some o) None (Some (ListSerializationError lmsg lobj None None))))
    as Hlist.
  { intros lmsg lobj Hfail.
    unfold BaseSerializable.serialize, class_meta. rewrite Hmeta. cbn [bind].
    rewrite Ho. cbn [bind]. by rewrite Hfail. }
  split_and!; [exact Hfield | exact Hlist |].
  intros Hsedes Hnames values Hvalues. split.
  - intros Hlen. eexists. eexists. apply Hlist.
    rewrite Hsedes. simpl. rewrite Hvalues.
    rewrite bool_decide_true by (by rewrite length_fmap). reflexivity.
  - intros i s v e Hlen Hs Hv Hfail Hbefore.
    destruct (lookup_lt_is_Some_2 (field_names meta) i) as [name Hname].
    { rewrite Hnames, length_fmap, <- Hlen. eapply lookup_lt_Some, Hv. }
    exists name. eexists. eexists. split; [done|].
    apply Hfield; [|done]. rewrite Hsedes. simpl. rewrite Hvalues.
    rewrite bool_decide_false by (rewrite length_fmap; intros Hne; by apply Hne).
    rewrite (serialize_elements_fails o 0 _ _ i s v e Hs Hv Hfail Hbefore). reflexivity.
Qed.

Lemma serialize_error_names_field_witness :
  ∃ message list_exception,
    BaseSerializable.serialize Triple
      (AnyValue (VTuple [VAtom (ABytes "a"); int 1; VAtom (ABytes "c")]))
    = Raise (ObjectSerializationError message
               (Some (OValue (VTuple [VAtom (ABytes "a"); int 1; VAtom (ABytes "c")])))
               (Some "b") (Some list_exception)).
Proof.
  destruct (serialize_error_names_field Triple (the_meta Triple)
              (AnyValue (VTuple [VAtom (ABytes "a"); int 1; VAtom (ABytes "c")]))
              (OValue (VTuple [VAtom (ABytes "a"); int 1; VAtom (ABytes "c")]))
              ltac:(vm_compute; reflexivity) eq_refl) as (_ & _ & Hschema).
  destruct (Hschema ltac:(vm_compute; reflexivity) ltac:(vm_compute; reflexivity)
              [VAtom (ABytes "a"); int 1; VAtom (ABytes "c")] eq_refl) as [_ Hfield].
  destruct (Hfield 1%nat binary (int 1)
              (SerializationError "Object is not a serializable" (Some (OValue (int 1)))))
    as (name & message & lmsg & Hname & Hser).
  - vm_compute; reflexivity.
  - vm_compute; reflexivity.
  - reflexivity.
  - reflexivity.
  - intros [|j] s' v' Hj Hs' Hv'; [|lia].
    vm_compute in Hs'. injection Hs' as <-. injection Hv' as <-. eexists. reflexivity.
  - vm_compute in Hname. injection Hname as <-. eauto.
Defined.

(* ===================================================================== *)
(** * Further properties of the code *)
(* ===================================================================== *)

(** ** Argument merging *)

(** [_get_duplicates] returns, each once, exactly the items that occur at
    least twice; it is empty exactly on a sequence without repetition. *)
Theorem get_duplicates_spec (values : list string) :
  NoDup (_get_duplicates values)
  ∧ (∀ x, x ∈ _get_duplicates values ↔ (2 ≤ count_occ String.string_dec values x)%nat)
  ∧ (_get_duplicates values = [] ↔ NoDup values).
Proof.
  split_and!.
  - apply NoDup_fst_map_to_list.
  - intros x. unfold _get_duplicates. rewrite list_elem_of_fmap. split.
    + intros ([k n] & -> & Hin). apply elem_of_map_to_list in Hin.
      apply map_lookup_filter_Some in Hin as [Hc Hp]. apply Counter_lookup in Hc as [-> _].
      simpl in *. lia.
    + intros Hx. exists (x, count_occ String.string_dec values x). split; [done|].
      apply elem_of_map_to_list, map_lookup_filter_Some. split; [|simpl; lia].
      apply Counter_lookup. split; [done | lia].
  - apply _get_duplicates_nil.
Qed.

(** [validate_args_and_kwargs] returns normally exactly when the argument
    names are unique, no positional name is given again by name, every
    named key is an argument name and, unless [allow_missing], no name is
    left without a value; any other call raises a [TypeError]. *)
Theorem validate_args_and_kwargs_spec args kwargs arg_names allow_missing :
  (validate_args_and_kwargs args kwargs arg_names allow_missing = Ok ()
   ↔ valid_call args kwargs arg_names allow_missing)
  ∧ (validate_args_and_kwargs args kwargs arg_names allow_missing = Ok ()
     ∨ ∃ message,
         validate_args_and_kwargs args kwargs arg_names allow_missing
         = Raise (TypeError message)).
Proof.
  destruct (validate_cases args kwargs arg_names allow_missing) as [[Hok Hv]|[[m Hm] Hv]].
  - split; [done | by left].
  - split; [|right; eauto]. rewrite Hm. split; [done | intros ?; by destruct Hv].
Qed.

Lemma mapM_raise_inv {A B} (f : A → result B) l e :
  mapM f l = Raise e → ∃ x, x ∈ l ∧ f x = Raise e.
Proof.
  induction l as [|x l IH]; [done|]. simpl.
  destruct (f x) as [y|e'] eqn:Hx; simpl.
  - destruct (mapM f l) as [ys|e']; [done|]. simpl. intros [= <-].
    destruct IH as (z & Hz & Hfz); [done|]. exists z. split; [by apply list_elem_of_further | done].
  - intros [= <-]. exists x. split; [apply list_elem_of_here | done].
Qed.

(** [merge_kwargs_to_args]: a valid call yields the positional values
    followed by the named values of the remaining names, in the order of the
    names; an invalid call raises a [TypeError]; and with [allow_missing] a
    name left without a value still fails, with the [KeyError] of the
    lookup. *)
Theorem merge_kwargs_to_args_spec args kwargs arg_names :
  (valid_call args kwargs arg_names false →
     ∃ rest, merge_kwargs_to_args args kwargs arg_names false = Ok (args ++ rest)
             ∧ Forall2 (λ name v, kwargs !! name = Some v)
                       (drop (length args) arg_names) rest)
  ∧ (¬ valid_call args kwargs arg_names false →
     ∃ message, merge_kwargs_to_args args kwargs arg_names false = Raise (TypeError message))
  ∧ (valid_call args kwargs arg_names true →
     ∀ name, name ∈ drop (length args) arg_names → name ∉ dom kwargs →
       ∃ key, merge_kwargs_to_args args kwargs arg_names true = Raise (KeyError key)
              ∧ key ∈ drop (length args) arg_names ∧ key ∉ dom kwargs).
Proof.
  split_and!.
  - apply merge_kwargs_to_args_ok.
  - apply merge_kwargs_to_args_raise.
  - intros Hvalid name Hname Hdom. unfold merge_kwargs_to_args.
    destruct (validate_cases args kwargs arg_names true) as [[-> _]|[_ Hno]]; [|done].
    cbn [bind].
    destruct (mapM_raise (getitem_dict kwargs) _ name (KeyError name) Hname) as [e He].
    { unfold getitem_dict. apply not_elem_of_dom in Hdom. by rewrite Hdom. }
    rewrite He. cbn [bind].
    apply mapM_raise_inv in He as (key & Hkey & Hget). unfold getitem_dict in Hget.
    destruct (kwargs !! key) eqn:Hk; [done|]. injection Hget as <-.
    exists key. split_and!; [done | done | by apply not_elem_of_dom].
Qed.

Lemma zip_swap_keys (args : list value) (arg_names : list string) :
  ((λ vn : value * string, (vn.2, vn.1)) <$> zip args arg_names).*1
  = take (length args) arg_names.
Proof.
  revert arg_names. induction args as [|v args IH]; intros [|n arg_names]; simpl; try done.
  f_equal. apply IH.
Qed.

Lemma zip_swap_elem (args : list value) (arg_names : list string) name v :
  (name, v) ∈ (λ vn : value * string, (vn.2, vn.1)) <$> zip args arg_names
  ↔ ∃ i, args !! i = Some v ∧ arg_names !! i = Some name.
Proof.
  rewrite list_elem_of_fmap. split.
  - intros ([v' n'] & [= -> ->] & Hin). apply list_elem_of_lookup in Hin as [i Hi].
    apply lookup_zip_with_Some in Hi as (x & y & [= -> ->] & Hx & Hy). eauto.
  - intros (i & Hv & Hn). exists (v, name). split; [done|]. by eapply zip_lookup_pair.
Qed.

(** The dictionary [merge_args_to_kwargs] builds: under every argument name
    the value the call gives it, positionally or by name. *)
Lemma merge_args_to_kwargs_lookup args kwargs arg_names i name :
  NoDup arg_names →
  (∀ n, n ∈ take (length args) arg_names → n ∉ dom kwargs) →
  arg_names !! i = Some name →
  py_dict kwargs ((λ vn : value * string, (vn.2, vn.1)) <$> zip args arg_names) !! name
  = argument args kwargs i name.
Proof.
  intros Hnd Hused Hname. rewrite py_dict_spec, lookup_union. unfold argument.
  assert (NoDup ((λ vn : value * string, (vn.2, vn.1)) <$> zip args arg_names).*1) as Hkeys.
  { rewrite zip_swap_keys. eapply sublist_NoDup; [exact Hnd | apply sublist_take]. }
  destruct (args !! i) as [v|] eqn:Hv.
  - rewrite (elem_of_list_to_map_1 _ name v).
    + assert (kwargs !! name = None) as ->; [|done].
      apply not_elem_of_dom, Hused, list_elem_of_lookup. exists i.
      rewrite lookup_take_lt; [done|]. by eapply lookup_lt_Some.
    + by rewrite fmap_reverse, reverse_Permutation.
    + apply elem_of_reverse, zip_swap_elem. eauto.
  - rewrite (not_elem_of_list_to_map_1 _ name); [by destruct (kwargs !! name)|].
    rewrite fmap_reverse, elem_of_reverse, zip_swap_keys. intros Hin.
    apply list_elem_of_lookup in Hin as [j Hj]. apply lookup_take_Some in Hj as [Hj Hlt].
    assert (j = i) as -> by exact (NoDup_lookup arg_names j i name Hnd Hj Hname).
    apply lookup_ge_None in Hv. lia.
Qed.

(** [merge_args_to_kwargs] on a valid call returns the dictionary that
    holds, under every argument name, the value the call gives that name,
    positionally or by name; merging that dictionary back to positional
    values gives what [merge_kwargs_to_args] gives for the call itself. *)
Theorem merge_args_to_kwargs_round_trip args kwargs arg_names allow_missing :
  valid_call args kwargs arg_names allow_missing →
  ∃ d, merge_args_to_kwargs args kwargs arg_names allow_missing = Ok d
    ∧ (∀ i name, arg_names !! i = Some name → d !! name = argument args kwargs i name)
    ∧ (∀ key, key ∉ arg_names → d !! key = None)
    ∧ (allow_missing = false → (length args ≤ length arg_names)%nat →
       merge_kwargs_to_args [] d arg_names false
       = merge_kwargs_to_args args kwargs arg_names false).
Proof.
  intros Hvalid. pose proof Hvalid as (Hnd & Hused & Hknown & Hmissing).
  unfold merge_args_to_kwargs.
  destruct (validate_cases args kwargs arg_names allow_missing) as [[-> _]|[_ Hno]]; [|done].
  cbn [bind]. eexists. split; [reflexivity|].
  set (d := py_dict kwargs ((λ vn : value * string, (vn.2, vn.1)) <$> zip args arg_names)).
  assert (∀ i name, arg_names !! i = Some name → d !! name = argument args kwargs i name)
    as Hlook by (intros i name Hname; by apply merge_args_to_kwargs_lookup).
  assert (∀ key, key ∉ arg_names → d !! key = None) as Hother.
  { intros key Hkey. unfold d. rewrite py_dict_spec, lookup_union.
    rewrite (not_elem_of_list_to_map_1 _ key).
    - assert (kwargs !! key = None) as ->; [|done].
      apply not_elem_of_dom. intros Hd. by apply Hkey, Hknown.
    - rewrite fmap_reverse, elem_of_reverse, zip_swap_keys. intros Hin.
      apply Hkey. by eapply subseteq_take. }
  split_and!; [done | done |]. intros -> Hlen.
  destruct (merge_kwargs_to_args_ok _ _ _ Hvalid) as (rest & Hmerge & Hrest).
  rewrite Hmerge.
  assert (∀ i name, arg_names !! i = Some name → (args ++ rest) !! i = d !! name) as Hfv.
  { intros i name Hname. rewrite (Hlook i name Hname). unfold argument.
    destruct (args !! i) as [w|] eqn:Hw; [by rewrite (lookup_app_l_Some _ _ _ _ Hw)|].
    apply lookup_ge_None in Hw. rewrite lookup_app_r by done.
    destruct (lookup_lt_is_Some_2 rest (i - length args)) as [v Hv].
    { apply Forall2_length in Hrest. rewrite length_drop in Hrest.
      apply lookup_lt_Some in Hname. lia. }
    rewrite Hv. symmetry. eapply Forall2_lookup_lr in Hrest; [exact Hrest| |exact Hv].
    rewrite lookup_drop, <- Hname. f_equal. lia. }
  assert (length (args ++ rest) = length arg_names) as Hlen'.
  { apply Forall2_length in Hrest. rewrite length_drop in Hrest. rewrite length_app. lia. }
  assert (valid_call [] d arg_names false) as Hvalid'.
  { split_and!; [done | by intros n ?%elem_of_nil | |].
    - intros n Hn. destruct (decide (n ∈ arg_names)) as [|Hni]; [done|].
      apply elem_of_dom in Hn as [v Hv]. by rewrite (Hother n Hni) in Hv.
    - intros _ n Hn. simpl in Hn. apply list_elem_of_lookup in Hn as [i Hi].
      apply elem_of_dom. rewrite <- (Hfv i n Hi). apply lookup_lt_is_Some.
      rewrite Hlen'. by eapply lookup_lt_Some. }
  destruct (merge_kwargs_to_args_ok _ _ _ Hvalid') as (rest' & -> & Hrest').
  simpl in *. f_equal.
  apply list_eq_same_length with (length arg_names);
    [done | by apply Forall2_length in Hrest' |].
  intros i x y Hi Hx Hy.
  destruct (lookup_lt_is_Some_2 arg_names i Hi) as [name Hname].
  eapply Forall2_lookup_lr in Hrest'; [| exact Hname | exact Hx].
  rewrite (Hfv i name Hname) in Hy. congruence.
Qed.

Lemma merge_args_to_kwargs_round_trip_witness :
  merge_args_to_kwargs [int 1] {["y" := int 2]} ["x"; "y"] false
  = Ok {["x" := int 1; "y" := int 2]}
  ∧ merge_kwargs_to_args [] {["x" := int 1; "y" := int 2]} ["x"; "y"] false
    = merge_kwargs_to_args [int 1] {["y" := int 2]} ["x"; "y"] false.
Proof.
  assert (valid_call [int 1] {["y" := int 2]} ["x"; "y"] false) as Hvalid.
  { destruct (validate_cases [int 1] {["y" := int 2]} ["x"; "y"] false) as [[_ Hv]|[[m Hm] _]];
      [exact Hv | vm_compute in Hm; discriminate]. }
  destruct (merge_args_to_kwargs_round_trip [int 1] {["y" := int 2]} ["x"; "y"] false Hvalid)
    as (d & Hd & _ & _ & Hround).
  assert (d = {["x" := int 1; "y" := int 2]}) as ->
    by (vm_compute in Hd; injection Hd as <-; vm_compute; reflexivity).
  split; [exact Hd | apply Hround; [reflexivity | simpl; lia]].
Defined.

(** ** The comparison helper [_eq] *)

Lemma _eq_pairs (l r : list value) :
  Forall (λ x, ∀ y, _eq x y = true ↔ immutable_projection x = immutable_projection y) l →
  bool_decide (length l = length r) && forallb (λ p, _eq p.1 p.2) (zip l r) = true
  ↔ immutable_projection <$> l = immutable_projection <$> r.
Proof.
  intros IH. revert r. induction IH as [|x l Hx _ IHl]; intros [|y r].
  - done.
  - split; [by rewrite bool_decide_false | done].
  - split; [by rewrite bool_decide_false | done].
  - specialize (IHl r). rewrite andb_true_iff, bool_decide_eq_true in IHl.
    rewrite andb_true_iff, bool_decide_eq_true, !fmap_cons. cbn [zip zip_with forallb fst snd].
    rewrite andb_true_iff, Hx. split.
    + intros (Hlen & Hxy & Hrest). f_equal; [done|]. apply IHl. split; [|done].
      simpl in Hlen. lia.
    + intros [= Hxy Hrest]. apply IHl in Hrest as [Hlen Hrest].
      split_and!; [simpl; lia | done | done].
Qed.

(** [_eq] holds between two values exactly when they agree once every list
    is read as a tuple: it is an equivalence relation, it contains [==], and
    it identifies a list with the tuple of the same items. *)
Theorem eq_helper_is_projection_equality :
  (∀ a b, _eq a b = true ↔ immutable_projection a = immutable_projection b)
  ∧ (∀ a b, _eq a b = _eq b a)
  ∧ (∀ a b c, _eq a b = true → _eq b c = true → _eq a c = true)
  ∧ (∀ a b, py_eq a b = true → _eq a b = true)
  ∧ (∀ items, _eq (VList items) (VTuple items) = true
              ∧ py_eq (VList items) (VTuple items) = false).
Proof.
  assert (∀ a b, _eq a b = true ↔ immutable_projection a = immutable_projection b) as Hspec.
  { intros a. induction a as [x|l IH|l IH] using value_ind_items; intros b.
    - change (_eq (VAtom x) b) with (py_eq (VAtom x) b). rewrite py_eq_eq.
      destruct b; simpl; split; congruence.
    - destruct b as [y|r|r].
      + split; [done | simpl; congruence].
      + destruct (_eq_sequences l r) as (-> & _). rewrite (_eq_pairs l r IH).
        simpl. split; congruence.
      + destruct (_eq_sequences l r) as (Hll & -> & _). rewrite Hll, (_eq_pairs l r IH).
        simpl. split; congruence.
    - destruct b as [y|r|r].
      + split; [done | simpl; congruence].
      + destruct (_eq_sequences l r) as (Hll & _ & -> & _). rewrite Hll, (_eq_pairs l r IH).
        simpl. split; congruence.
      + destruct (_eq_sequences l r) as (Hll & _ & _ & ->). rewrite Hll, (_eq_pairs l r IH).
        simpl. split; congruence. }
  split_and!; [exact Hspec | | | |].
  - intros a b. destruct (_eq a b) eqn:Hab, (_eq b a) eqn:Hba; try done.
    + apply Hspec in Hab. symmetry in Hab. apply Hspec in Hab. congruence.
    + apply Hspec in Hba. symmetry in Hba. apply Hspec in Hba. congruence.
  - intros a b c Hab Hbc. apply Hspec in Hab, Hbc. apply Hspec. congruence.
  - intros a b Hab. apply py_eq_eq in Hab as ->. apply _eq_refl.
  - intros items. split; [by apply Hspec | done].
Qed.

(** ** Storage slots: [_mk_field_attrs] *)

Lemma length_underscores k s : String.length (underscores k s) = (k + String.length s)%nat.
Proof.
  revert s. induction k as [|k IH]; intros s; [done|].
  cbn [underscores]. rewrite IH.
  change (String.length ("_" +:+ s)) with (S (String.length s)). lia.
Qed.

Lemma underscores_inj i j s : underscores i s = underscores j s → i = j.
Proof. intros Heq. apply (f_equal String.length) in Heq. rewrite !length_underscores in Heq. lia. Qed.

(** The loop of [_mk_field_attrs] stops at the first candidate that is not
    in the namespace, or when the fuel is used up. *)
Lemma fresh_attr_spec fuel ns field :
  ∃ k, (1 ≤ k ≤ S fuel)%nat
       ∧ fresh_attr fuel ns field = underscores k field
       ∧ (∀ i, (1 ≤ i < k)%nat → underscores i field ∈ ns)
       ∧ ((k ≤ fuel)%nat → underscores k field ∉ ns).
Proof.
  revert field. induction fuel as [|fuel IH]; intros field.
  - exists 1%nat. split; [lia|]. split; [done|]. split; [intros i ?; lia | intros ?; lia].
  - cbn [fresh_attr]. case_bool_decide as Hin.
    + destruct (IH ("_" +:+ field)) as (k & Hk & -> & Hbelow & Hfresh).
      exists (S k). split; [lia|]. split; [done|].
      split; [|intros ?; apply Hfresh; lia].
      intros [|[|i]] Hi; [lia | exact Hin |]. apply (Hbelow (S i)). lia.
    + exists 1%nat. split; [lia|]. split; [done|]. split; [intros i ?; lia | done].
Qed.

(** With the size of the namespace as fuel the loop always ends on a name
    that is not in the namespace. *)
Lemma fresh_attr_fresh ns field :
  (fresh_attr (size ns) ns field ∉ ns)
  ∧ ∃ k, (1 ≤ k)%nat ∧ fresh_attr (size ns) ns field = underscores k field.
Proof.
  destruct (fresh_attr_spec (size ns) ns field) as (k & Hk & Heq & Hbelow & Hfresh).
  split; [|exists k; split; [lia | done]]. rewrite Heq.
  destruct (decide (k ≤ size ns)%nat) as [Hle|Hgt]; [by apply Hfresh|].
  assert (k = S (size ns)) as -> by lia. intros Hin.
  set (candidates := (λ i, underscores (S i) field) <$> seq 0 (S (size ns))).
  assert (NoDup candidates) as Hnd.
  { apply NoDup_fmap_2_strong; [|apply NoDup_seq].
    intros i j _ _ Hij. apply underscores_inj in Hij. lia. }
  assert (list_to_set candidates ⊆ ns) as Hsub.
  { intros x Hx. apply elem_of_list_to_set, list_elem_of_fmap in Hx as (i & -> & Hi).
    apply elem_of_seq in Hi.
    destruct (decide (S i = S (size ns))) as [->|Hne]; [done|]. apply Hbelow. lia. }
  apply subseteq_size in Hsub. rewrite size_list_to_set in Hsub by done.
  unfold candidates in Hsub. rewrite length_fmap, length_seq in Hsub. lia.
Qed.

Lemma _mk_field_attrs_from_spec ns names :
  NoDup (_mk_field_attrs_from ns names)
  ∧ Forall (λ attr, attr ∉ ns) (_mk_field_attrs_from ns names)
  ∧ Forall2 (λ name attr, ∃ k, (1 ≤ k)%nat ∧ attr = underscores k name)
            names (_mk_field_attrs_from ns names).
Proof.
  revert ns. induction names as [|name names IH]; intros ns.
  - split_and!; constructor.
  - cbn [_mk_field_attrs_from].
    destruct (fresh_attr_fresh ns name) as (Hfresh & k & Hk & Heq).
    destruct (IH ({[fresh_attr (size ns) ns name]} ∪ ns)) as (Hnd & Hout & Hshape).
    split_and!.
    + constructor; [|done]. intros Hin.
      rewrite Forall_forall in Hout. apply (Hout _ Hin).
      by apply elem_of_union_l, elem_of_singleton.
    + constructor; [done|]. eapply Forall_impl; [exact Hout|].
      intros x Hx Hin. by apply Hx, elem_of_union_r.
    + constructor; [eauto | done].
Qed.

Lemma mk_field_attrs_spec (field_names : list string)
    (extra_namespace : gset string) :
  length (_mk_field_attrs field_names extra_namespace) = length field_names
  ∧ NoDup (_mk_field_attrs field_names extra_namespace)
  ∧ (∀ attr, attr ∈ _mk_field_attrs field_names extra_namespace →
       (attr ∉ field_names) ∧ (attr ∉ extra_namespace))
  ∧ (∀ i name, field_names !! i = Some name →
       ∃ k attr, (1 ≤ k)%nat
                 ∧ _mk_field_attrs field_names extra_namespace !! i = Some attr
                 ∧ attr = underscores k name).
Proof.
  unfold _mk_field_attrs.
  destruct (_mk_field_attrs_from_spec (list_to_set field_names ∪ extra_namespace) field_names)
    as (Hnd & Hout & Hshape).
  split_and!.
  - symmetry. by eapply Forall2_length.
  - done.
  - intros attr Hin. rewrite Forall_forall in Hout. specialize (Hout attr Hin).
    split.
    + intros Hname. by apply Hout, elem_of_union_l, elem_of_list_to_set.
    + intros Hextra. by apply Hout, elem_of_union_r.
  - intros i name Hname.
    destruct (Forall2_lookup_l _ _ _ _ _ Hshape Hname) as (attr & Hattr & k & Hk & ->).
    eauto.
Qed.

(** The storage slots [_mk_field_attrs] computes: one per field name, each
    the field name behind one or more underscores, pairwise different, and
    none of them a field name or a name of the reserved namespace. *)
Theorem mk_field_attrs_fresh_and_distinct (field_names : list string)
    (extra_namespace : gset string) :
  length (_mk_field_attrs field_names extra_namespace) = length field_names
  ∧ NoDup (_mk_field_attrs field_names extra_namespace)
  ∧ (∀ attr, attr ∈ _mk_field_attrs field_names extra_namespace →
       (attr ∉ field_names) ∧ (attr ∉ extra_namespace))
  ∧ (∀ i name, field_names !! i = Some name →
       ∃ k attr, (1 ≤ k)%nat
                 ∧ _mk_field_attrs field_names extra_namespace !! i = Some attr
                 ∧ attr = underscores k name).
Proof. apply mk_field_attrs_spec. Qed.


(** ** Schema construction: what [SerializableBase.__new__] guarantees *)

Lemma underscores_S k s : underscores (S k) s = "_" +:+ underscores k s.
Proof.
  revert s. induction k as [|k IH]; intros s; [reflexivity|].
  change (underscores (S (S k)) s) with (underscores (S k) ("_" +:+ s)).
  by rewrite IH.
Qed.

(** The slot of a public field is called [_meta] only for the field [meta]. *)
Lemma underscores_meta k s :
  underscores k s = "_meta" → leading_underscore s = false → s = "meta".
Proof.
  destruct k as [|k]; [cbn; intros -> Hs; by vm_compute in Hs|]. rewrite underscores_S.
  change ("_" +:+ underscores k s) with (String (Ascii.ascii_of_nat 95) (underscores k s)).
  intros [= Heq] Hs.
  destruct k as [|k]; [done|]. rewrite underscores_S in Heq.
  change ("_" +:+ underscores k s) with (String (Ascii.ascii_of_nat 95) (underscores k s)) in Heq. done.
Qed.

Section new_more.
Context `{Interpreter}.

Lemma new_ok_inv name bases attrs_fields attrs_keys cls :
  SerializableBase.__new__ name bases attrs_fields attrs_keys = Ok cls →
  (serializable_bases_of bases = [] ∧ cls_meta cls = None
   ∧ cls_name cls = name ∧ cls_is_serializable cls = true)
  ∨ (∃ fs added, serializable_bases_of bases ≠ []
       ∧ match attrs_fields with
         | Some declared => fs = declared
         | None =>
             (length (serializable_bases_of bases) ≤ 1)%nat
             ∧ fs = match serializable_bases_of bases with
                    | parent :: _ => match cls_meta parent with
                                     | Some meta => fields meta
                                     | None => []
                                     end
                    | [] => []
                    end
         end
       ∧ NoDup fs.*1
       ∧ Forall (λ n, _is_valid_identifier n = true) fs.*1
       ∧ parent_field_names_of (serializable_bases_of bases) ⊆ list_to_set fs.*1
       ∧ super_new name bases fs.*1 (attrs_keys ∪ {["_meta"]}) = Ok added
       ∧ cls = {| cls_name := name; cls_is_serializable := true;
                  cls_issubclass_Serializable := existsb cls_issubclass_Serializable bases;
                  cls_meta := Some {| fields := fs; field_names := fs.*1;
                                      field_attrs := _mk_field_attrs fs.*1
                                        (attrs_keys ∪ ⋃ (cls_mro_namespace <$> bases));
                                      sedes := ListSedes fs.*2 |};
                  cls_body := attrs_keys ∪ {["_meta"]} ∪ ⋃ (cls_body <$> bases);
                  cls_mro_namespace := list_to_set fs.*1 ∪ (attrs_keys ∪ {["_meta"]}) ∪ added
                                       ∪ ⋃ (cls_mro_namespace <$> bases) |}).
Proof.
  unfold SerializableBase.__new__. cbv zeta.
  case_bool_decide as Hsub; cbn [negb].
  - intros Hnew. right.
    destruct (match attrs_fields with
              | Some declared => Ok declared
              | None => _
              end) as [fs|e] eqn:Hfs; [|done].
    cbn [bind] in Hnew.
    case_bool_decide as Hdup; [done|]. apply _get_duplicates_nil in Hdup.
    case_bool_decide as Hinvalid; [done|]. apply invalid_names_empty in Hinvalid.
    case_bool_decide as Hmissing; [done|].
    destruct (super_new name bases fs.*1 (attrs_keys ∪ {["_meta"]})) as [added|e] eqn:Hadded;
      [|done].
    cbn [bind] in Hnew. injection Hnew as <-.
    exists fs, added. split_and!; [done | | done | done | | done | done].
    + destruct attrs_fields as [declared|]; [by injection Hfs as <-|].
      case_bool_decide as Hmulti; [done|]. split; [lia|].
      destruct (serializable_bases_of bases) as [|parent rest]; [by injection Hfs as <-|].
      destruct (cls_meta parent); by injection Hfs as <-.
    + intros n Hn. destruct (decide (n ∈ (list_to_set fs.*1 : gset string))) as [|Hni]; [done|].
      exfalso. apply (not_elem_of_empty (C:=gset string) n). rewrite <- Hmissing.
      by apply elem_of_difference.
  - destruct (super_new name bases [] _) as [added|e]; [|done]. cbn [bind].
    intros [= <-]. left. split_and!; [|done..].
    by destruct (decide (serializable_bases_of bases = [])).
Qed.

Lemma new_class_ok name bases attrs_fields attrs_keys cls meta :
  SerializableBase.__new__ name bases attrs_fields attrs_keys = Ok cls →
  cls_meta cls = Some meta →
  class_ok cls meta
  ∧ field_names meta = (fields meta).*1
  ∧ (∀ attr, attr ∈ field_attrs meta →
       (attr ∉ field_names meta) ∧ (attr ∉ attrs_keys)
       ∧ (∀ base, base ∈ bases → attr ∉ cls_mro_namespace base)
       ∧ ∃ k n, n ∈ field_names meta ∧ attr = underscores (S k) n).
Proof.
  intros Hnew Hmeta.
  destruct (new_ok_inv _ _ _ _ _ Hnew)
    as [(_ & Hnone & _)|(fs & added & Hsub & _ & Hnd & Hvalid & Hparents & _ & ->)];
    [congruence|].
  injection Hmeta as <-. cbn [field_names field_attrs fields sedes].
  destruct (mk_field_attrs_spec fs.*1 (attrs_keys ∪ ⋃ (cls_mro_namespace <$> bases)))
    as (Hlen & Hattrs & Hfresh & Hform).
  split_and!; [split; done | done |].
  intros attr Hattr. destruct (Hfresh attr Hattr) as [Hn Hreserved].
  split_and!; [done | | |].
  - intros Hk. by apply Hreserved, elem_of_union_l.
  - intros base Hbase Hin. apply Hreserved, elem_of_union_r, elem_of_union_list.
    exists (cls_mro_namespace base). split; [|done].
    apply list_elem_of_fmap. eauto.
  - apply list_elem_of_lookup in Hattr as [i Hi].
    destruct (lookup_lt_is_Some_2 fs.*1 i) as [n Hn'].
    { rewrite <- Hlen. by eapply lookup_lt_Some. }
    destruct (Hform i n Hn') as (k & attr' & Hk & Hattr' & ->).
    rewrite Hi in Hattr'. injection Hattr' as ->.
    destruct k as [|k]; [lia|]. exists k, n. split; [by eapply list_elem_of_lookup_2 | done].
Qed.

End new_more.

(** Every class that [SerializableBase.__new__] creates with a schema has
    the invariant the record layer relies on: unique field names that are
    valid identifiers, one storage slot per field, the slots pairwise
    different and disjoint from the field names, the keys of the class body
    and the namespaces of the bases, and the list sedes of the field sedes
    as its wire contract. *)
Theorem new_class_invariant `{Interpreter} name bases attrs_fields attrs_keys cls meta :
  SerializableBase.__new__ name bases attrs_fields attrs_keys = Ok cls →
  cls_meta cls = Some meta →
  class_ok cls meta
  ∧ Forall (λ n, _is_valid_identifier n = true) (field_names meta)
  ∧ field_names meta = (fields meta).*1
  ∧ sedes meta = ListSedes (fields meta).*2
  ∧ (∀ attr, attr ∈ field_attrs meta →
       (attr ∉ field_names meta) ∧ (attr ∉ attrs_keys)
       ∧ ∀ base, base ∈ bases → attr ∉ cls_mro_namespace base)
  ∧ (∀ base n, base ∈ bases → cls_is_serializable base = true →
       n ∈ meta_field_names base → n ∈ field_names meta)
  ∧ cls_name cls = name ∧ cls_is_serializable cls = true
  ∧ cls_issubclass_Serializable cls = existsb cls_issubclass_Serializable bases.
Proof.
  intros Hnew Hmeta.
  destruct (new_class_ok _ _ _ _ _ _ Hnew Hmeta) as (Hok & Hnames & Hslots).
  destruct (new_ok_inv _ _ _ _ _ Hnew)
    as [(_ & Hnone & _)|(fs & added & Hsub & _ & Hnd & Hvalid & Hparents & _ & ->)];
    [congruence|].
  injection Hmeta as <-.
  cbn [field_names field_attrs fields sedes cls_name cls_is_serializable
       cls_issubclass_Serializable] in *.
  split_and!; [done | done | done | done | | | done | done | done].
  - intros attr Hattr. destruct (Hslots attr Hattr) as (? & ? & ? & _). done.
  - intros base n Hbase Hser Hn.
    assert (n ∈ (list_to_set fs.*1 : gset string)) as Hin; [|by apply elem_of_list_to_set in Hin].
    apply Hparents, elem_of_parent_field_names. eauto.
Qed.

Lemma new_class_invariant_witness :
  class_ok Point (the_meta Point)
  ∧ field_attrs (the_meta Point) = ["_x"; "_y"].
Proof.
  assert (@SerializableBase.__new__ sample_interpreter "Point" [Serializable_class]
            (Some [("x", raw); ("y", raw)]) class_statement = Ok Point) as Hnew
    by (vm_compute; reflexivity).
  assert (cls_meta Point = Some (the_meta Point)) as Hmeta by reflexivity.
  split; [|reflexivity].
  exact (proj1 (@new_class_invariant sample_interpreter _ _ _ _ _ _ Hnew Hmeta)).
Defined.

(** A class that [SerializableBase.__new__] creates is plain when its
    fields have public names other than [meta] that no class body binds,
    neither its class body nor those of its bases override an attribute of
    [BaseSerializable], one of its bases has the names of
    [BaseSerializable] in its namespace, and the creation of the class adds
    no name that the bases and the class body do not have.  So is every
    class declared in the usual way, and every subclass of such a class. *)
Theorem new_class_plain `{Interpreter} name bases attrs_fields attrs_keys cls meta added :
  SerializableBase.__new__ name bases attrs_fields attrs_keys = Ok cls →
  cls_meta cls = Some meta →
  super_new name bases (field_names meta) (attrs_keys ∪ {["_meta"]}) = Ok added →
  added ⊆ attrs_keys ∪ ⋃ (cls_mro_namespace <$> bases) →
  (∀ n, n ∈ field_names meta →
     leading_underscore n = false ∧ (n ∉ attrs_keys ∪ ⋃ (cls_body <$> bases))
     ∧ n ≠ "meta") →
  ("__getattr__" ∉ attrs_keys ∪ ⋃ (cls_body <$> bases)) →
  (attrs_keys ∪ ⋃ (cls_body <$> bases)) ∩ cls_mro_namespace BaseSerializable_class
    ⊆ class_statement_names →
  (∃ base, base ∈ bases
           ∧ cls_mro_namespace BaseSerializable_class ⊆ cls_mro_namespace base) →
  class_ok cls meta ∧ plain_class cls meta.
Proof.
  intros Hnew Hmeta Hadded Hsub Hnames Hgetattr Hbody (base & Hbase & Hns).
  destruct (new_class_ok _ _ _ _ _ _ Hnew Hmeta) as (Hok & _ & Hslots).
  split; [done|].
  destruct (new_ok_inv _ _ _ _ _ Hnew)
    as [(_ & Hnone & _)|(fs & added' & _ & _ & _ & _ & _ & Hadded' & ->)];
    [congruence|].
  injection Hmeta as <-. cbn [field_names field_attrs] in *.
  rewrite Hadded in Hadded'. injection Hadded' as <-.
  assert (∀ x, x ∈ cls_mro_namespace base → x ∈ ⋃ (cls_mro_namespace <$> bases)) as Hbases.
  { intros x Hx. apply elem_of_union_list. exists (cls_mro_namespace base).
    split; [|done]. apply list_elem_of_fmap. eauto. }
  assert ("_meta" ∉ cls_mro_namespace BaseSerializable_class) as Hno_meta
    by (apply (bool_decide_unpack _); vm_compute; exact I).
  split; cbn [field_names field_attrs cls_body cls_mro_namespace].
  - intros n Hn. by destruct (Hnames n Hn).
  - intros n Hn. destruct (Hnames n Hn) as (Hpub & Hkeys & _).
    rewrite !elem_of_union, elem_of_singleton. rewrite elem_of_union in Hkeys.
    intros [[?| ->]|?]; [tauto | done | tauto].
  - split.
    + rewrite !elem_of_union, elem_of_singleton. rewrite elem_of_union in Hgetattr.
      intros [[?|?]|?]; [tauto | done | tauto].
    + intros x. rewrite elem_of_intersection, !elem_of_union, elem_of_singleton.
      intros [[[?| ->]|?] Hx]; [| done |].
      * apply Hbody. apply elem_of_intersection. split; [by apply elem_of_union_l | done].
      * apply Hbody. apply elem_of_intersection. split; [by apply elem_of_union_r | done].
  - intros n Hn. rewrite !elem_of_union, elem_of_list_to_set. tauto.
  - intros a Ha. destruct (Hslots a Ha) as (Hfield & Hkeys & Hbs & k & n & Hn & ->).
    rewrite !elem_of_union, elem_of_list_to_set, elem_of_singleton.
    assert (underscores (S k) n ∉ ⋃ (cls_mro_namespace <$> bases)) as Hnot.
    { intros Hin. apply elem_of_union_list in Hin as (X & HX & Hin).
      apply list_elem_of_fmap in HX as (b & -> & Hb). by apply (Hbs b Hb). }
    intros [[[?|[?|Hm]]|Hin]|?]; [done | done | | | done].
    + destruct (Hnames n Hn) as (Hpub & _ & Hne).
      by apply Hne, (underscores_meta (S k)).
    + apply Hsub in Hin. apply elem_of_union in Hin as [?|?]; done.
  - intros x. rewrite !elem_of_union, elem_of_singleton.
    intros [->|Hx]; [left; left; right; right; done|]. right. by apply Hbases, Hns.
Qed.

Lemma new_class_plain_witness :
  class_ok Point (the_meta Point) ∧ plain_class Point (the_meta Point).
Proof.
  apply (@new_class_plain sample_interpreter "Point" [Serializable_class]
           (Some [("x", raw); ("y", raw)]) class_statement Point (the_meta Point)
           (list_to_set ["__module__"; "__doc__"; "__abstractmethods__"; "_abc_impl"])).
  - vm_compute. reflexivity.
  - reflexivity.
  - vm_compute. reflexivity.
  - apply (bool_decide_unpack _). vm_compute. exact I.
  - intros n Hn. revert n Hn. apply (proj1 (Forall_forall _ _)).
    apply (bool_decide_unpack _). vm_compute. exact I.
  - apply (bool_decide_unpack _). vm_compute. exact I.
  - apply (bool_decide_unpack _). vm_compute. exact I.
  - exists Serializable_class. split; [apply list_elem_of_here|].
    apply (bool_decide_unpack _). vm_compute. exact I.
Defined.

Lemma parent_field_names_single bases parent pmeta :
  serializable_bases_of bases = [parent] → cls_meta parent = Some pmeta →
  parent_field_names_of (serializable_bases_of bases) = list_to_set (field_names pmeta).
Proof.
  intros Hsb Hmeta. apply set_eq. intros n.
  rewrite elem_of_parent_field_names, elem_of_list_to_set. split.
  - intros (base & Hbase & Hser & Hn).
    assert (base ∈ serializable_bases_of bases) as Hin by (by apply list_elem_of_filter).
    rewrite Hsb in Hin. apply list_elem_of_singleton in Hin as ->.
    unfold meta_field_names in Hn. by rewrite Hmeta in Hn.
  - intros Hn. assert (parent ∈ serializable_bases_of bases) as Hin
      by (rewrite Hsb; apply list_elem_of_here).
    apply list_elem_of_filter in Hin as [Hser Hin]. exists parent.
    split_and!; [done | done |]. unfold meta_field_names. by rewrite Hmeta.
Qed.

(** A class created without a Serializable base (the root [Serializable])
    gets no schema.  A subclass that declares no fields inherits the fields
    of its one Serializable parent verbatim (none, if the parent has no
    schema), and is refused with a [TypeError] when it has several
    Serializable parents.  In each case but the last the class exists if
    its creation by [abc.ABCMeta.__new__] succeeds. *)
Theorem new_without_declared_fields `{Interpreter} name bases attrs_keys :
  (serializable_bases_of bases = [] →
     ∀ attrs_fields added,
       super_new name bases []
         (attrs_keys ∪ match attrs_fields with Some _ => {["fields"]} | None => ∅ end)
       = Ok added →
       ∃ cls, SerializableBase.__new__ name bases attrs_fields attrs_keys = Ok cls
              ∧ cls_meta cls = None ∧ cls_is_serializable cls = true)
  ∧ ((1 < length (serializable_bases_of bases))%nat →
     ∃ message, SerializableBase.__new__ name bases None attrs_keys
                = Raise (TypeError message))
  ∧ (∀ parent pmeta added,
       serializable_bases_of bases = [parent] → cls_meta parent = Some pmeta →
       field_names pmeta = (fields pmeta).*1 → NoDup (field_names pmeta) →
       Forall (λ n, _is_valid_identifier n = true) (field_names pmeta) →
       super_new name bases (field_names pmeta) (attrs_keys ∪ {["_meta"]}) = Ok added →
       ∃ cls meta,
         SerializableBase.__new__ name bases None attrs_keys = Ok cls
         ∧ cls_meta cls = Some meta
         ∧ fields meta = fields pmeta ∧ field_names meta = field_names pmeta
         ∧ sedes meta = ListSedes (fields pmeta).*2)
  ∧ (∀ parent added,
       serializable_bases_of bases = [parent] → cls_meta parent = None →
       super_new name bases [] (attrs_keys ∪ {["_meta"]}) = Ok added →
       ∃ cls meta,
         SerializableBase.__new__ name bases None attrs_keys = Ok cls
         ∧ cls_meta cls = Some meta ∧ fields meta = [] ∧ field_attrs meta = []).
Proof.
  split_and!.
  - intros Hsb attrs_fields added Hadded. unfold SerializableBase.__new__. cbv zeta.
    rewrite Hsb. rewrite bool_decide_false by (intros Hne; by apply Hne). cbn [negb].
    rewrite Hadded. cbn [bind]. eexists. split; [reflexivity|]. done.
  - intros Hlen. unfold SerializableBase.__new__. cbv zeta.
    rewrite bool_decide_true by (intros Heq; rewrite Heq in Hlen; simpl in Hlen; lia).
    cbn [negb]. rewrite (bool_decide_true (1 < _)%nat) by done. cbn [bind]. eauto.
  - intros parent pmeta added Hsb Hmeta Hnames Hnd Hvalid Hadded.
    pose proof (parent_field_names_single _ _ _ Hsb Hmeta) as Hparents.
    unfold SerializableBase.__new__. cbv zeta. rewrite Hparents, Hsb.
    rewrite bool_decide_true by done. cbn [negb].
    rewrite (bool_decide_false (1 < _)%nat) by (simpl; lia). rewrite Hmeta. cbn [bind].
    rewrite <- Hnames.
    rewrite bool_decide_false by (intros Hne; apply Hne; by apply _get_duplicates_nil).
    rewrite bool_decide_false by (intros Hne; apply Hne; by apply invalid_names_empty).
    rewrite bool_decide_false by (intros Hne; apply Hne; apply difference_diag_L).
    rewrite Hadded. cbn [bind].
    eexists. eexists. split; [reflexivity|]. done.
  - intros parent added Hsb Hmeta Hadded. unfold SerializableBase.__new__. cbv zeta.
    assert (parent_field_names_of (serializable_bases_of bases) = ∅) as ->.
    { apply set_eq. intros n. rewrite elem_of_parent_field_names.
      split; [|by intros ?%not_elem_of_empty].
      intros (base & Hbase & Hser & Hn).
      assert (base ∈ serializable_bases_of bases) as Hin by (by apply list_elem_of_filter).
      rewrite Hsb in Hin. apply list_elem_of_singleton in Hin as ->.
      unfold meta_field_names in Hn. rewrite Hmeta in Hn. by apply elem_of_nil in Hn. }
    rewrite Hsb. rewrite bool_decide_true by done. cbn [negb].
    rewrite (bool_decide_false (1 < _)%nat) by (simpl; lia). rewrite Hmeta. cbn [bind].
    rewrite bool_decide_false by (intros Hne; by apply Hne).
    rewrite bool_decide_false by (intros Hne; by apply Hne).
    rewrite bool_decide_false by (intros Hne; apply Hne; apply difference_diag_L).
    cbn [fmap list_fmap] in *. rewrite Hadded. cbn [bind].
    eexists. eexists. split; [reflexivity|]. done.
Qed.

(** A declaration with a repeated field name is refused with the
    [TypeError] that lists the repeated names, and a declaration of unique
    names one of which is no valid identifier is refused with a
    [TypeError] as well. *)
Theorem new_rejects_bad_field_names `{Interpreter} name bases declared attrs_keys :
  serializable_bases_of bases ≠ [] →
  (¬ NoDup declared.*1 →
     SerializableBase.__new__ name bases (Some declared) attrs_keys
     = Raise (TypeError
         ("The following fields are duplicated in the `fields` declaration: "
          +:+ join "," (sorted (_get_duplicates declared.*1)))))
  ∧ (NoDup declared.*1 →
     ∀ n, n ∈ declared.*1 → _is_valid_identifier n = false →
       ∃ message, SerializableBase.__new__ name bases (Some declared) attrs_keys
                  = Raise (TypeError message)).
Proof.
  intros Hsub. split.
  - intros Hnd. unfold SerializableBase.__new__. cbv zeta.
    rewrite (bool_decide_true (serializable_bases_of bases ≠ [])) by done.
    cbn [negb bind].
    rewrite bool_decide_true; [done|]. intros Hnil. by apply Hnd, _get_duplicates_nil.
  - intros Hnd n Hn Hinvalid.
    destruct (new_declared_cases name bases declared attrs_keys Hsub)
      as [(Hno & _)|[(_ & _ & m & ->)|[(_ & Hv & _)|(_ & Hv & _)]]]; [done | eauto | |].
    + rewrite Forall_forall in Hv. rewrite (Hv n Hn) in Hinvalid. done.
    + rewrite Forall_forall in Hv. rewrite (Hv n Hn) in Hinvalid. done.
Qed.

Lemma new_rejects_bad_field_names_witness :
  @SerializableBase.__new__ sample_interpreter "Bad" [Serializable_class]
    (Some [("x", raw); ("y", raw); ("x", raw)]) class_statement
  = Raise (TypeError "The following fields are duplicated in the `fields` declaration: x")
  ∧ ∃ message, @SerializableBase.__new__ sample_interpreter "Bad" [Serializable_class]
                 (Some [("x", raw); ("2y", raw)]) class_statement = Raise (TypeError message).
Proof.
  assert (serializable_bases_of [Serializable_class] ≠ []) as Hsub
    by (vm_compute; discriminate).
  split.
  - rewrite (proj1 (@new_rejects_bad_field_names sample_interpreter "Bad" [Serializable_class]
                      [("x", raw); ("y", raw); ("x", raw)] class_statement Hsub)).
    + vm_compute. reflexivity.
    + intros Hnd. apply (bool_decide_pack _) in Hnd. vm_compute in Hnd. exact Hnd.
  - apply (proj2 (@new_rejects_bad_field_names sample_interpreter "Bad" [Serializable_class]
                    [("x", raw); ("2y", raw)] class_statement Hsub)) with "2y".
    + apply (bool_decide_unpack _). vm_compute. exact I.
    + apply (bool_decide_unpack _). vm_compute. exact I.
    + vm_compute. reflexivity.
Defined.

(** ** Changesets *)

Lemma call_method_cases {A} cs method (body : result A) :
  BaseChangeset.call_method cs method body = body
  ∨ ∃ e, BaseChangeset.call_method cs method body = Raise e.
Proof.
  unfold BaseChangeset.call_method. case_bool_decide; [right | by left].
  destruct (ChangesetField.__get__ method cs); cbn [bind]; eauto.
Qed.

Lemma after_call_step c cs :
  (state_rank (__state__ cs) ≤ state_rank (__state__ (after_call c cs)))%nat
  ∧ __original__ (after_call c cs) = __original__ cs
  ∧ (__state__ cs = CLOSED → after_call c cs = cs)
  ∧ (__state__ (after_call c cs) = INITIALIZED → after_call c cs = cs)
  ∧ dom (__diff__ cs) ⊆ dom (__diff__ (after_call c cs)).
Proof.
  assert (∀ s, BaseChangeset.call_method cs "close" (BaseChangeset.close cs) = Ok s →
               __state__ cs = OPEN ∧ s = BaseChangeset.set_state cs CLOSED) as Hclose.
  { intros s. destruct (call_method_cases cs "close" (BaseChangeset.close cs)) as [->|[e ->]];
      [|done]. unfold BaseChangeset.close. case_bool_decide; [|done]. by intros [= <-]. }
  assert (∀ s, BaseChangeset.call_method cs "open" (BaseChangeset.open cs) = Ok s →
               __state__ cs = INITIALIZED ∧ s = BaseChangeset.set_state cs OPEN) as Hopen.
  { intros s. destruct (call_method_cases cs "open" (BaseChangeset.open cs)) as [->|[e ->]];
      [|done]. unfold BaseChangeset.open. case_bool_decide; [|done]. by intros [= <-]. }
  assert (∀ s, __state__ cs = OPEN →
            let cs' := BaseChangeset.set_state cs s in
            (state_rank (__state__ cs) ≤ state_rank s)%nat →
            (state_rank (__state__ cs) ≤ state_rank (__state__ cs'))%nat
            ∧ __original__ cs' = __original__ cs
            ∧ (__state__ cs = CLOSED → cs' = cs)
            ∧ (__state__ cs' = INITIALIZED → cs' = cs)
            ∧ dom (__diff__ cs) ⊆ dom (__diff__ cs')) as Hfrom_open.
  { intros s Hs cs' Hrank. subst cs'. cbn. rewrite Hs in *. split_and!; try done.
    intros ->. simpl in Hrank. lia. }
  assert ((state_rank (__state__ cs) ≤ state_rank (__state__ cs))%nat
          ∧ __original__ cs = __original__ cs
          ∧ (__state__ cs = CLOSED → cs = cs)
          ∧ (__state__ cs = INITIALIZED → cs = cs)
          ∧ dom (__diff__ cs) ⊆ dom (__diff__ cs)) as Hsame by (split_and!; done).
  destruct c as [| | | | | | f | f v]; unfold after_call.
  - destruct (BaseChangeset.call_method cs "open" _) as [s|e]; [|done].
    destruct (Hopen s eq_refl) as [Hs ->]. cbn. rewrite Hs. split_and!; (done || simpl; lia).
  - destruct (BaseChangeset.call_method cs "close" _) as [s|e]; [|done].
    destruct (Hclose s eq_refl) as [Hs ->]. apply Hfrom_open; [done|]. rewrite Hs. simpl. lia.
  - destruct (call_method_cases cs "__enter__" (BaseChangeset.__enter__ cs)) as [->|[e ->]];
      [|done].
    unfold BaseChangeset.__enter__. case_bool_decide as Hs; [|done].
    destruct (BaseChangeset.call_method cs "open" _) as [s|e]; [|done].
    destruct (Hopen s eq_refl) as [_ ->]. cbn. rewrite Hs. split_and!; (done || simpl; lia).
  - destruct (call_method_cases cs "__exit__" (BaseChangeset.__exit__ cs)) as [->|[e ->]];
      [|done].
    unfold BaseChangeset.__exit__. case_bool_decide as Hs; [|done].
    destruct (BaseChangeset.call_method cs "close" _) as [s|e]; [|done].
    destruct (Hclose s eq_refl) as [_ ->]. apply Hfrom_open; [done|]. rewrite Hs. simpl. lia.
  - destruct (call_method_cases cs "commit" (BaseChangeset.commit cs)) as [->|[e ->]];
      [|done].
    unfold BaseChangeset.commit.
    destruct (BaseChangeset.call_method cs "build_rlp" _) as [obj|e]; cbn [bind]; [|done].
    destruct (BaseChangeset.call_method cs "close" _) as [s|e]; cbn [bind]; [|done].
    destruct (Hclose s eq_refl) as [Hs ->]. apply Hfrom_open; [done|]. rewrite Hs. simpl. lia.
  - done.
  - done.
  - unfold ChangesetField.__set__. case_bool_decide as Hs; [done|]. cbn.
    assert (__state__ cs = OPEN) as Hopen' by (by destruct (decide (__state__ cs = OPEN))).
    rewrite Hopen'. split_and!; try done.
    rewrite dom_insert_L. apply union_subseteq_r.
Qed.

Lemma after_calls_steps (calls : list changeset_call) (cs : changeset) :
  (state_rank (__state__ cs) ≤ state_rank (__state__ (after_calls calls cs)))%nat
  ∧ __original__ (after_calls calls cs) = __original__ cs
  ∧ (__state__ cs = CLOSED → after_calls calls cs = cs)
  ∧ (__state__ (after_calls calls cs) = INITIALIZED → after_calls calls cs = cs)
  ∧ dom (__diff__ cs) ⊆ dom (__diff__ (after_calls calls cs)).
Proof.
  revert cs. induction calls as [|c calls IH]; intros cs; [done|].
  change (after_calls (c :: calls) cs) with (after_calls calls (after_call c cs)).
  destruct (after_call_step c cs) as (Hrank & Horig & Hclosed & Hinit & Hdom).
  destruct (IH (after_call c cs)) as (Hrank' & Horig' & Hclosed' & Hinit' & Hdom').
  split_and!.
  - lia.
  - by rewrite Horig'.
  - intros Hc. rewrite (Hclosed Hc). rewrite (Hclosed Hc) in Hclosed'. by apply Hclosed'.
  - intros Hi. specialize (Hinit' Hi). rewrite Hinit' in Hi |- *. by apply Hinit.
  - etrans; [exact Hdom | exact Hdom'].
Qed.

(** The life cycle of a changeset over a record of a plain class is
    one-way: whatever calls are made on it (exceptions caught), its state
    only moves forward from INITIALIZED to OPEN to CLOSED, the original
    record is never replaced, a CLOSED changeset never changes again, a
    changeset that is still INITIALIZED has not been changed at all, and no
    staged field is ever unstaged. *)
Theorem changeset_life_cycle `{PyHash} cls meta (calls : list changeset_call)
    (cs : changeset) :
  class_ok cls meta → plain_class cls meta → record_of cls (__original__ cs) →
  (state_rank (__state__ cs) ≤ state_rank (__state__ (after_calls calls cs)))%nat
  ∧ __original__ (after_calls calls cs) = __original__ cs
  ∧ (__state__ cs = CLOSED → after_calls calls cs = cs)
  ∧ (__state__ (after_calls calls cs) = INITIALIZED → after_calls calls cs = cs)
  ∧ dom (__diff__ cs) ⊆ dom (__diff__ (after_calls calls cs)).
Proof. intros _ _ _. apply after_calls_steps. Qed.

Lemma changeset_life_cycle_witness :
  (1 ≤ state_rank (__state__
         (after_calls [CallSet "x" (int 7); CallCommit; CallSet "y" (int 9); CallOpen]
            {| __original__ := new_record Point (the_meta Point) [int 1; int 2];
               __state__ := OPEN; __diff__ := {["y" := int 3]} |})))%nat
  ∧ dom ({["y" := int 3]} : gmap string value)
    ⊆ dom (__diff__
         (after_calls [CallSet "x" (int 7); CallCommit; CallSet "y" (int 9); CallOpen]
            {| __original__ := new_record Point (the_meta Point) [int 1; int 2];
               __state__ := OPEN; __diff__ := {["y" := int 3]} |})).
Proof.
  assert (BaseSerializable.__init__ Point [int 1; int 2] ∅
          = Ok (new_record Point (the_meta Point) [int 1; int 2])) as Hp
    by (vm_compute; reflexivity).
  destruct (@changeset_life_cycle sample_hash Point (the_meta Point)
              [CallSet "x" (int 7); CallCommit; CallSet "y" (int 9); CallOpen]
              {| __original__ := new_record Point (the_meta Point) [int 1; int 2];
                 __state__ := OPEN; __diff__ := {["y" := int 3]} |}
              Point_ok Point_plain
              (@record_built sample_hash Point [int 1; int 2] ∅ _ Hp))
    as (Hrank & _ & _ & _ & Hdom).
  split; [exact Hrank | exact Hdom].
Defined.

(** In an OPEN changeset over a record of a plain class, staging a value
    for a field succeeds; reading the field afterwards returns the very
    value staged (a list is still a list: the projection is applied only by
    [commit]); the other fields read as before; and the original record
    and the state are untouched. *)
Theorem changeset_set_then_get `{PyHash} cls meta (f : string) (v : value) (cs : changeset) :
  class_ok cls meta → plain_class cls meta → record_of cls (__original__ cs) →
  f ∈ field_names meta →
  __state__ cs = OPEN →
  ∃ cs', ChangesetField.__set__ f cs v = Ok cs'
    ∧ ChangesetField.__get__ f cs' = Ok v
    ∧ (∀ g, g ≠ f → ChangesetField.__get__ g cs' = ChangesetField.__get__ g cs)
    ∧ __original__ cs' = __original__ cs ∧ __state__ cs' = OPEN.
Proof.
  intros _ _ _ _ Hopen. unfold ChangesetField.__set__.
  rewrite bool_decide_false by (intros Hne; by apply Hne).
  eexists. split; [reflexivity|]. unfold ChangesetField.__get__. cbn.
  rewrite Hopen. rewrite bool_decide_false by (intros Hne; by apply Hne).
  split_and!; [by rewrite lookup_insert_eq | | done | done].
  intros g Hg. by rewrite lookup_insert_ne.
Qed.

Lemma changeset_set_then_get_witness :
  ∃ cs',
    ChangesetField.__set__ "x"
      {| __original__ := new_record Point (the_meta Point) [int 1; int 2];
         __state__ := OPEN; __diff__ := ∅ |} (VList [int 7]) = Ok cs'
    ∧ ChangesetField.__get__ "x" cs' = Ok (VList [int 7])
    ∧ ChangesetField.__get__ "y" cs' = Ok (int 2).
Proof.
  assert (BaseSerializable.__init__ Point [int 1; int 2] ∅
          = Ok (new_record Point (the_meta Point) [int 1; int 2])) as Hp
    by (vm_compute; reflexivity).
  destruct (@changeset_set_then_get sample_hash Point (the_meta Point) "x" (VList [int 7])
              {| __original__ := new_record Point (the_meta Point) [int 1; int 2];
                 __state__ := OPEN; __diff__ := ∅ |}
              Point_ok Point_plain
              (@record_built sample_hash Point [int 1; int 2] ∅ _ Hp)
              ltac:(apply (bool_decide_unpack _); vm_compute; exact I) eq_refl)
    as (cs' & Hset & Hget & Hother & _).
  exists cs'. split; [exact Hset|]. split; [exact Hget|].
  rewrite (Hother "y") by discriminate. vm_compute. reflexivity.
Defined.

Section changeset_more.
Context `{PyHash}.

Lemma build_changeset_ok cls meta r args kwargs :
  class_ok cls meta → plain_class cls meta → record_of cls r →
  valid_call args kwargs (field_names meta) true →
  ∃ cs, build_changeset r args kwargs = Ok cs
    ∧ __state__ cs = INITIALIZED ∧ __original__ cs = r
    ∧ (∀ i name, field_names meta !! i = Some name →
         __diff__ cs !! name = argument args kwargs i name).
Proof.
  intros Hok Hplain Hr Hvalid. pose proof Hvalid as (Hnd & Hused & _).
  unfold build_changeset, Changeset.
  rewrite !(record_instance_meta _ _ _ _ Hok Hplain Hr). cbn [bind].
  unfold merge_args_to_kwargs.
  destruct (validate_cases args kwargs (field_names meta) true) as [[-> _]|[_ Hno]]; [|done].
  cbn [bind].
  eexists. split; [reflexivity|]. split_and!; [done | done |].
  intros i name Hname. cbn. rewrite <- (merge_args_to_kwargs_lookup _ _ _ _ _ Hnd Hused Hname).
  case_bool_decide as Hd; [done|].
  assert (py_dict kwargs ((λ vn : value * string, (vn.2, vn.1)) <$> zip args (field_names meta)) = ∅)
    as -> by (by destruct (decide (py_dict kwargs
               ((λ vn : value * string, (vn.2, vn.1)) <$> zip args (field_names meta)) = ∅))).
  done.
Qed.

End changeset_more.

(** [build_changeset] on a record of a plain class, none of whose fields
    has the name of a method called on a changeset: a call whose names are
    valid (missing names allowed) returns an INITIALIZED changeset over the
    record that stages exactly the values given, positionally or by name;
    entering and committing it returns a record that holds, for every
    field, the projection of the value given for it, or the value of the
    original record when none was given, and leaves the changeset CLOSED.
    A call that is not valid raises a [TypeError]. *)
Theorem build_changeset_then_commit `{PyHash} cls meta r args kwargs :
  class_ok cls meta → plain_class cls meta → changeset_names_free meta →
  record_of cls r →
  (valid_call args kwargs (field_names meta) true →
     ∃ cs cs1 obj cs2,
       build_changeset r args kwargs = Ok cs
       ∧ __state__ cs = INITIALIZED ∧ __original__ cs = r
       ∧ (∀ i name, field_names meta !! i = Some name →
            __diff__ cs !! name = argument args kwargs i name)
       ∧ BaseChangeset.__enter__ cs = Ok cs1
       ∧ BaseChangeset.call_method cs1 "commit" (BaseChangeset.commit cs1) = Ok (obj, cs2)
       ∧ __state__ cs2 = CLOSED
       ∧ __class__ obj = cls
       ∧ ∀ i name, field_names meta !! i = Some name →
           field_value obj name
           = match argument args kwargs i name with
             | Some v => Some (make_immutable v)
             | None => field_value r name
             end)
  ∧ (¬ valid_call args kwargs (field_names meta) true →
     ∃ message, build_changeset r args kwargs = Raise (TypeError message)).
Proof.
  intros Hok Hplain Hfree Hr.
  apply Forall_cons in Hfree as [Hself Hfree]. apply Forall_cons in Hfree as [Hcommit Hfree].
  apply Forall_cons in Hfree as [Hbuild_rlp Hfree]. apply Forall_cons in Hfree as [Hopen Hfree].
  apply Forall_cons in Hfree as [Hclose _].
  split.
  - intros Hvalid.
    destruct (build_changeset_ok _ _ _ _ _ Hok Hplain Hr Hvalid)
      as (cs & Hcs & Hstate & Horig & Hdiff).
    set (cs1 := BaseChangeset.set_state cs OPEN).
    assert (record_of cls (__original__ cs)) as Hr0 by (by rewrite Horig).
    assert (record_of cls (__original__ cs1)) as Hr1 by (by cbn; rewrite Horig).
    destruct (build_rlp_open cls meta cs1 Hok Hplain Hr1 Hself eq_refl)
      as (kw & obj & Hbuild & Hinit & Hdom & Hfields).
    exists cs, cs1, obj, (BaseChangeset.set_state cs1 CLOSED).
    split_and!; [done | done | done | done | | | done | |].
    + unfold BaseChangeset.__enter__.
      rewrite (call_method_free _ _ _ _ _ Hok Hplain Hr0 Hopen).
      unfold BaseChangeset.open. by rewrite !bool_decide_true.
    + rewrite (call_method_free _ _ _ _ _ Hok Hplain Hr1 Hcommit).
      unfold BaseChangeset.commit.
      rewrite (call_method_free _ _ _ _ _ Hok Hplain Hr1 Hbuild_rlp).
      rewrite (call_method_free _ _ _ _ _ Hok Hplain Hr1 Hclose).
      rewrite Hbuild. cbn [bind].
      unfold BaseChangeset.close. by rewrite bool_decide_true.
    + destruct (init_fv _ _ _ _ _ Hok Hinit) as (fv & -> & _). done.
    + intros i name Hname.
      destruct (Hfields name) as (v & _ & Hstored & Hv); [by eapply list_elem_of_lookup_2|].
      cbn in Hv. rewrite (Hdiff i name Hname) in Hv. rewrite Horig in Hv.
      destruct (argument args kwargs i name) as [staged|]; [by subst v|].
      rewrite Hstored, Hv.
      destruct (record_field cls meta r name Hok Hplain Hr) as (w & Hw & Hfix);
        [by eapply list_elem_of_lookup_2|].
      rewrite Hv in Hw. injection Hw as <-. by rewrite Hfix.
  - intros Hno. unfold build_changeset.
    rewrite (record_instance_meta _ _ _ _ Hok Hplain Hr). cbn [bind].
    unfold merge_args_to_kwargs.
    destruct (validate_cases args kwargs (field_names meta) true) as [[_ ?]|[[m ->] _]]; [done|].
    cbn [bind]. eauto.
Qed.

Lemma build_changeset_then_commit_witness :
  ∃ cs cs1 obj cs2,
    build_changeset (new_record Point (the_meta Point) [int 1; int 2]) []
      {["y" := VList [int 5]]} = Ok cs
    ∧ BaseChangeset.__enter__ cs = Ok cs1
    ∧ BaseChangeset.commit cs1 = Ok (obj, cs2)
    ∧ field_value obj "x" = Some (int 1)
    ∧ field_value obj "y" = Some (VTuple [int 5]).
Proof.
  assert (BaseSerializable.__init__ Point [int 1; int 2] ∅
          = Ok (new_record Point (the_meta Point) [int 1; int 2])) as Hp
    by (vm_compute; reflexivity).
  assert (valid_call [] {["y" := VList [int 5]]} (field_names (the_meta Point)) true) as Hvalid.
  { destruct (validate_cases [] {["y" := VList [int 5]]} (field_names (the_meta Point)) true)
      as [[_ Hv]|[[m Hm] _]]; [exact Hv | vm_compute in Hm; discriminate]. }
  destruct (@build_changeset_then_commit sample_hash Point (the_meta Point)
              (new_record Point (the_meta Point) [int 1; int 2]) [] {["y" := VList [int 5]]}
              Point_ok Point_plain Point_names_free
              (@record_built sample_hash Point [int 1; int 2] ∅ _ Hp))
    as [Hbuild _].
  destruct (Hbuild Hvalid) as (cs & cs1 & obj & cs2 & Hcs & _ & Horig & _ & Henter & Hcommit & _ & _ & Hf).
  exists cs, cs1, obj, cs2. split; [exact Hcs|]. split; [exact Henter|].
  split.
  { rewrite <- Hcommit. unfold BaseChangeset.call_method at 1.
    assert (__original__ cs1 = new_record Point (the_meta Point) [int 1; int 2]) as Ho.
    { unfold BaseChangeset.__enter__, BaseChangeset.call_method, BaseChangeset.open in Henter.
      repeat case_bool_decide; try discriminate.
      - by destruct (ChangesetField.__get__ "open" cs).
      - injection Henter as <-. exact Horig. }
    unfold changeset_fields. rewrite Ho. reflexivity. }
  split.
  - rewrite (Hf 0%nat "x" eq_refl). vm_compute. reflexivity.
  - rewrite (Hf 1%nat "y" eq_refl). vm_compute. reflexivity.
Defined.

(** ** Reading a record: [__iter__], [__getitem__], [as_dict], [__len__] *)

Section record_access.
Context `{PyHash}.

(** The stored values of a record, position by position, under the slot,
    the field name and the key of [as_dict]. *)
Lemma record_items cls meta r :
  class_ok cls meta → plain_class cls meta → record_of cls r →
  ∃ items,
    BaseSerializable.__iter__ r = Ok items
    ∧ length items = length (field_names meta)
    ∧ Forall (λ v, make_immutable v = v) items
    ∧ (∀ i attr, field_attrs meta !! i = Some attr →
         ∃ v, items !! i = Some v ∧ getattr_slot r attr = Ok v)
    ∧ (∀ i name, field_names meta !! i = Some name → field_value r name = items !! i)
    ∧ (∀ name, name ∉ field_names meta → field_value r name = None).
Proof.
  intros Hok Hplain Hr.
  destruct (record_of_inv _ _ _ Hok Hplain Hr) as (fv & Hcls & Hdict & Hlen & Hiter & _).
  exists (make_immutable <$> fv). split_and!.
  - done.
  - by rewrite length_fmap.
  - apply Forall_fmap, Forall_forall. intros v _. apply make_immutable_idempotent.
  - intros i attr Hattr.
    destruct (lookup_lt_is_Some_2 fv i) as [w Hw].
    { rewrite Hlen, <- (ok_length _ _ Hok). by eapply lookup_lt_Some. }
    exists (make_immutable w). split; [by rewrite list_lookup_fmap, Hw|].
    unfold getattr_slot. rewrite Hdict.
    by rewrite (new_record_slot cls meta fv i attr w (ok_attrs _ _ Hok) Hattr Hw).
  - intros i name Hname.
    destruct (lookup_lt_is_Some_2 fv i) as [w Hw].
    { rewrite Hlen. by eapply lookup_lt_Some. }
    rewrite list_lookup_fmap, Hw. cbn.
    rewrite <- (new_record_field cls meta fv i name w Hok Hname Hw).
    unfold field_value. by rewrite Hcls, Hdict.
  - intros name Hni. unfold field_value. rewrite Hcls, (ok_meta _ _ Hok).
    unfold field_props. rewrite py_dict_lookup_None; [done|].
    intros Hin. apply Hni. eapply elem_of_sublist; [exact Hin | apply zip_fst_sublist].
Qed.

Lemma as_dict_record cls meta r :
  class_ok cls meta → plain_class cls meta → record_of cls r →
  ∃ d, BaseSerializable.as_dict r = Ok d
    ∧ dom d = list_to_set (field_names meta)
    ∧ ∀ name, d !! name = field_value r name.
Proof.
  intros Hok Hplain Hr.
  destruct (record_items _ _ _ Hok Hplain Hr)
    as (items & Hiter & Hlen & _ & _ & Hfield & Hother).
  unfold BaseSerializable.as_dict.
  rewrite (record_instance_meta _ _ _ _ Hok Hplain Hr).
  cbn [bind]. rewrite Hiter. cbn [bind]. eexists. split; [reflexivity|].
  assert ((zip (field_names meta) items).*1 = field_names meta) as Hkeys
    by (apply fst_zip; lia).
  split.
  - by rewrite py_dict_dom, Hkeys.
  - intros name. destruct (decide (name ∈ field_names meta)) as [Hin|Hni].
    + apply list_elem_of_lookup in Hin as [i Hname]. rewrite (Hfield i name Hname).
      destruct (lookup_lt_is_Some_2 items i) as [v Hv].
      { rewrite Hlen. by eapply lookup_lt_Some. }
      rewrite Hv. apply py_dict_lookup; [rewrite Hkeys; apply (ok_names _ _ Hok)|].
      by eapply zip_lookup_pair.
    + rewrite (Hother name Hni). apply py_dict_lookup_None. by rewrite Hkeys.
Qed.

End record_access.

Lemma py_index_negative {A} (seq : list A) (i : nat) x :
  seq !! i = Some x → py_index seq (Z.of_nat i - Z.of_nat (length seq)) = Ok x.
Proof.
  intros Hx. pose proof (lookup_lt_Some _ _ _ Hx) as Hlt. unfold py_index.
  destruct (Z.ltb_spec (Z.of_nat i - Z.of_nat (length seq)) 0) as [_|?]; [|lia].
  destruct (Z.ltb_spec (Z.of_nat i - Z.of_nat (length seq) + Z.of_nat (length seq)) 0)
    as [?|_]; [lia|].
  destruct (Z.leb_spec (Z.of_nat (length seq))
              (Z.of_nat i - Z.of_nat (length seq) + Z.of_nat (length seq))) as [?|_]; [lia|].
  simpl. replace (Z.of_nat i - Z.of_nat (length seq) + Z.of_nat (length seq))
    with (Z.of_nat i) by lia. by rewrite Nat2Z.id, Hx.
Qed.

Lemma py_index_out_of_range {A} (seq : list A) (i : Z) :
  i < - Z.of_nat (length seq) ∨ Z.of_nat (length seq) ≤ i →
  py_index seq i = Raise (IndexError "tuple index out of range").
Proof.
  intros Hi. unfold py_index.
  destruct (Z.ltb_spec i 0) as [Hneg|Hpos].
  - destruct (Z.ltb_spec (i + Z.of_nat (length seq)) 0) as [_|?]; [done|].
    destruct (Z.leb_spec (Z.of_nat (length seq)) (i + Z.of_nat (length seq))) as [_|?];
      [done | lia].
  - destruct (Z.ltb_spec i 0) as [?|_]; [lia|].
    destruct (Z.leb_spec (Z.of_nat (length seq)) i) as [_|?]; [done | lia].
Qed.

(** The ways of reading a record of a plain class agree.  Iterating the
    record yields one value per field, in the order of the fields; the
    value at position [i] is what [r[i]], [r[i - len]] (the negative
    index), [r[name]] and [as_dict()[name]] return for the field [name] at
    that position; an integer index outside [-len .. len - 1] raises an
    [IndexError]; a string that is no name in the namespace of the class
    and no slot raises an [AttributeError]; the keys of [as_dict()] are
    exactly the field names; and [len(r)] is the number of values, given
    one field name per declared field. *)
Theorem record_access_agrees `{PyHash} cls meta r :
  class_ok cls meta → plain_class cls meta → record_of cls r →
  ∃ items d,
    BaseSerializable.__iter__ r = Ok items
    ∧ BaseSerializable.as_dict r = Ok d
    ∧ length items = length (field_names meta)
    ∧ dom d = list_to_set (field_names meta)
    ∧ (∀ i name, field_names meta !! i = Some name →
         ∃ v, items !! i = Some v
           ∧ BaseSerializable.__getitem__ r (IdxInt (Z.of_nat i)) = Ok v
           ∧ BaseSerializable.__getitem__ r
               (IdxInt (Z.of_nat i - Z.of_nat (length items))) = Ok v
           ∧ BaseSerializable.__getitem__ r (IdxStr name) = Ok v
           ∧ d !! name = Some v)
    ∧ (∀ i : Z, i < - Z.of_nat (length items) ∨ Z.of_nat (length items) ≤ i →
         ∃ message, BaseSerializable.__getitem__ r (IdxInt i) = Raise (IndexError message))
    ∧ (∀ s, s ∉ field_names meta → s ∉ field_attrs meta → s ∉ cls_mro_namespace cls →
         ∃ message, BaseSerializable.__getitem__ r (IdxStr s)
                    = Raise (AttributeError message))
    ∧ (length (fields meta) = length (field_names meta) →
       BaseSerializable.__len__ r = Ok (length items)).
Proof.
  intros Hok Hplain Hr.
  destruct (record_items _ _ _ Hok Hplain Hr)
    as (items & Hiter & Hlen & _ & Hslot & Hfield & Hother).
  destruct (as_dict_record _ _ _ Hok Hplain Hr) as (d & Hd & Hdom & Hlook).
  destruct (record_of_inv _ _ _ Hok Hplain Hr) as (fv & Hcls & Hdict & Hfv & _).
  pose proof (ok_length _ _ Hok) as Hattrs.
  pose proof (record_instance_meta cls meta r "field_attrs" Hok Hplain Hr) as Hmeta.
  exists items, d. split_and!; [done..| | | |].
  - intros i name Hname.
    destruct (lookup_lt_is_Some_2 (field_attrs meta) i) as [attr Hattr].
    { rewrite Hattrs. by eapply lookup_lt_Some. }
    destruct (Hslot i attr Hattr) as (v & Hv & Hget). exists v.
    assert (field_value r name = Some v) as Hval by (by rewrite (Hfield i name Hname)).
    split_and!; [done | | | |].
    + unfold BaseSerializable.__getitem__. rewrite Hmeta. cbn [bind].
      rewrite (py_index_nat _ _ _ Hattr). cbn [bind]. exact Hget.
    + unfold BaseSerializable.__getitem__. rewrite Hmeta. cbn [bind].
      rewrite Hlen, <- Hattrs, (py_index_negative _ _ _ Hattr). cbn [bind]. exact Hget.
    + by apply getattr_field_value.
    + by rewrite Hlook.
  - intros i Hi. unfold BaseSerializable.__getitem__. rewrite Hmeta. cbn [bind].
    rewrite py_index_out_of_range by (rewrite Hattrs, <- Hlen; exact Hi). cbn [bind]. eauto.
  - intros s Hname Hattr _. unfold BaseSerializable.__getitem__, getattr, class_meta.
    rewrite Hcls, (ok_meta _ _ Hok). cbn [bind].
    assert (field_props meta !! s = None) as ->.
    { unfold field_props. apply py_dict_lookup_None. intros Hin. apply Hname.
      eapply elem_of_sublist; [exact Hin | apply zip_fst_sublist]. }
    unfold getattr_slot. rewrite Hdict. cbn [__dict__ new_record]. rewrite setattr_loop.
    rewrite py_dict_lookup_None; [eauto|].
    intros Hin. apply Hattr. eapply elem_of_sublist; [exact Hin | apply zip_fst_sublist].
  - intros Hfields. unfold BaseSerializable.__len__.
    rewrite (record_instance_meta _ _ _ _ Hok Hplain Hr). cbn [bind]. by rewrite Hfields, Hlen.
Qed.

Lemma record_access_agrees_witness :
  BaseSerializable.__getitem__ (new_record Point (the_meta Point) [int 1; VList [int 2]])
    (IdxInt (-1)) = Ok (VTuple [int 2])
  ∧ BaseSerializable.__getitem__ (new_record Point (the_meta Point) [int 1; VList [int 2]])
      (IdxStr "y") = Ok (VTuple [int 2])
  ∧ ∃ message,
      BaseSerializable.__getitem__ (new_record Point (the_meta Point) [int 1; VList [int 2]])
        (IdxInt 2) = Raise (IndexError message).
Proof.
  assert (BaseSerializable.__init__ Point [int 1; VList [int 2]] ∅
          = Ok (new_record Point (the_meta Point) [int 1; VList [int 2]])) as Hp
    by (vm_compute; reflexivity).
  destruct (@record_access_agrees sample_hash Point (the_meta Point)
              (new_record Point (the_meta Point) [int 1; VList [int 2]])
              Point_ok Point_plain
              (@record_built sample_hash Point [int 1; VList [int 2]] ∅ _ Hp))
    as (items & d & Hiter & _ & Hlen & _ & Hfields & Hrange & _).
  assert (items = [int 1; VTuple [int 2]]) as ->
    by (vm_compute in Hiter; injection Hiter as <-; reflexivity).
  destruct (Hfields 1%nat "y" eq_refl) as (v & Hv & _ & Hneg & Hstr & _).
  injection Hv as <-. split; [exact Hneg|]. split; [exact Hstr|].
  apply Hrange. right. simpl. lia.
Defined.

(** ** [copy] *)

(** The named arguments [copy] hands the constructor: the overrides, and the
    values of the record for the fields without one. *)
Lemma copy_combined_kwargs (d kwargs : gmap string value) (args : list value)
    (names : list string) :
  let missing_overrides : gset string :=
    (list_to_set names ∖ dom kwargs) ∖ list_to_set (take (length args) names) in
  let unchanged := BaseSerializable.deepcopy <$> filter (λ kv, kv.1 ∈ missing_overrides) d in
  dom d = list_to_set names →
  dom unchanged ∩ dom kwargs = ∅
  ∧ (∀ name, name ∈ dom kwargs → (unchanged ∪ kwargs) !! name = kwargs !! name)
  ∧ (∀ name, name ∉ dom kwargs → name ∈ take (length args) names →
       (unchanged ∪ kwargs) !! name = None)
  ∧ (∀ name, name ∉ dom kwargs → name ∉ take (length args) names →
       (unchanged ∪ kwargs) !! name = d !! name).
Proof.
  intros mo unchanged Hdom.
  assert (∀ name, unchanged !! name
                  = if decide (name ∈ mo) then d !! name else None) as Hu.
  { intros name. unfold unchanged. rewrite lookup_fmap.
    destruct (decide (name ∈ mo)) as [Hin|Hni].
    - destruct (d !! name) as [v|] eqn:Hd.
      + by rewrite (map_lookup_filter_Some_2 _ d name v Hd Hin).
      + by rewrite (map_lookup_filter_None_2 _ d name) by (by left).
    - rewrite (map_lookup_filter_None_2 _ d name); [done|].
      right. intros v _ Hin. by apply Hni. }
  assert (∀ name, name ∈ mo
            ↔ name ∈ names ∧ (name ∉ dom kwargs) ∧ (name ∉ take (length args) names)) as Hmo.
  { intros name. unfold mo. rewrite !elem_of_difference, !elem_of_list_to_set. tauto. }
  split_and!.
  - apply set_eq. intros name. rewrite elem_of_intersection, elem_of_empty.
    split; [|done]. intros [Hin Hkw]. apply elem_of_dom in Hin as [v Hv].
    rewrite Hu in Hv. destruct (decide (name ∈ mo)) as [Hm|]; [|done].
    apply Hmo in Hm. tauto.
  - intros name Hkw. rewrite lookup_union, Hu.
    destruct (decide (name ∈ mo)) as [Hm|]; [apply Hmo in Hm; tauto|].
    by destruct (kwargs !! name).
  - intros name Hkw Htake. apply not_elem_of_dom in Hkw. rewrite lookup_union, Hu, Hkw.
    destruct (decide (name ∈ mo)) as [Hm|]; [apply Hmo in Hm; tauto | done].
  - intros name Hkw Htake. pose proof Hkw as Hkw'. apply not_elem_of_dom in Hkw'.
    rewrite lookup_union, Hu, Hkw'. destruct (decide (name ∈ mo)) as [Hm|Hm].
    + by destruct (d !! name).
    + assert (name ∉ names) as Hni by (intros Hin; apply Hm, Hmo; tauto).
      assert (d !! name = None) as ->; [|done].
      apply not_elem_of_dom. by rewrite Hdom, elem_of_list_to_set.
Qed.

Section copy_facts.
Context `{PyHash}.

(** A method of [BaseSerializable] whose name is no field name is the one
    found and called. *)
Lemma record_call_method_free {A} cls meta r method (body : result A) :
  class_ok cls meta → plain_class cls meta → record_of cls r →
  method ∉ field_names meta →
  BaseSerializable.call_method r method body = body.
Proof.
  intros Hok Hplain Hr Hfree.
  destruct (record_of_inv _ _ _ Hok Hplain Hr) as (fv & Hcls & _).
  unfold BaseSerializable.call_method. rewrite Hcls, (ok_meta _ _ Hok).
  unfold field_props. rewrite py_dict_lookup_None; [done|].
  intros Hin. apply Hfree. eapply elem_of_sublist; [exact Hin | apply zip_fst_sublist].
Qed.

Lemma copy_valid cls meta r args kwargs :
  class_ok cls meta → plain_class cls meta → record_of cls r →
  "self" ∉ field_names meta → "as_dict" ∉ field_names meta →
  valid_call args kwargs (field_names meta) true →
  ∃ fv, BaseSerializable.copy r args kwargs = Ok (new_record cls meta fv)
    ∧ record_of cls (new_record cls meta fv)
    ∧ length fv = length (field_names meta)
    ∧ ∀ i name, field_names meta !! i = Some name →
        fv !! i = match argument args kwargs i name with
                  | Some v => Some v
                  | None => field_value r name
                  end.
Proof.
  intros Hok Hplain Hr Hself Has_dict (Hnd & Hused & Hknown & _).
  destruct (as_dict_record _ _ _ Hok Hplain Hr) as (d & Hd & Hdom & Hlook).
  destruct (record_of_inv _ _ _ Hok Hplain Hr) as (fv0 & Hcls & _).
  destruct (copy_combined_kwargs d kwargs args (field_names meta) Hdom)
    as (Hdisj & Hkw & Htake & Hrest).
  unfold BaseSerializable.copy.
  rewrite (record_instance_meta _ _ _ _ Hok Hplain Hr). cbn [bind].
  rewrite (record_call_method_free _ _ _ _ _ Hok Hplain Hr Has_dict), Hd. cbn [bind].
  rewrite Hcls.
  set (combined := _ ∪ kwargs) in *.
  rewrite bool_decide_false by (intros Hne; by apply Hne). cbn [bind].
  assert (∀ name, name ∈ dom combined → name ∈ field_names meta) as Hknown'.
  { intros name Hin. destruct (decide (name ∈ dom kwargs)) as [|Hni]; [by apply Hknown|].
    destruct (decide (name ∈ take (length args) (field_names meta))) as [Ht|Ht].
    - by eapply subseteq_take.
    - apply elem_of_dom in Hin. rewrite (Hrest name Hni Ht) in Hin.
      apply elem_of_dom in Hin. by rewrite Hdom, elem_of_list_to_set in Hin. }
  assert (∀ name, name ∈ take (length args) (field_names meta) → name ∉ dom combined)
    as Hused'.
  { intros name Ht Hin. pose proof (Hused name Ht) as Hni.
    apply elem_of_dom in Hin. rewrite (Htake name Hni Ht) in Hin. by destruct Hin. }
  assert (∀ name, name ∈ drop (length args) (field_names meta) → name ∈ dom combined)
    as Hmissing'.
  { intros name Hdrop. apply elem_of_dom.
    destruct (decide (name ∈ dom kwargs)) as [Hin|Hni].
    - rewrite (Hkw name Hin). by apply elem_of_dom.
    - assert (name ∉ take (length args) (field_names meta)) as Ht.
      { intros Ht. rewrite <- (take_drop (length args) (field_names meta)) in Hnd.
        apply NoDup_app in Hnd as (_ & Hdisj' & _). by apply (Hdisj' name). }
      rewrite (Hrest name Hni Ht). apply elem_of_dom.
      rewrite Hdom, elem_of_list_to_set. by eapply subseteq_drop. }
  unfold merge_args_to_kwargs.
  destruct (validate_cases args combined (field_names meta) false) as [[-> _]|[_ Hno]];
    [|destruct Hno; split_and!; done].
  cbn [bind].
  set (all_kwargs := py_dict combined _).
  assert (∀ i name, field_names meta !! i = Some name →
            all_kwargs !! name = match argument args kwargs i name with
                                 | Some v => Some v
                                 | None => field_value r name
                                 end) as Hall.
  { intros i name Hname. unfold all_kwargs.
    rewrite (merge_args_to_kwargs_lookup _ _ _ i name Hnd Hused' Hname). unfold argument.
    destruct (args !! i) as [v|] eqn:Hv; [done|].
    destruct (kwargs !! name) as [v|] eqn:Hk.
    - rewrite Hkw by (by apply elem_of_dom). done.
    - rewrite Hrest, Hlook; [done | by apply not_elem_of_dom |].
      intros Ht. apply list_elem_of_lookup in Ht as [j Hj].
      apply lookup_take_Some in Hj as [Hj Hlt].
      assert (j = i) as -> by exact (NoDup_lookup _ j i name Hnd Hj Hname).
      apply lookup_ge_None in Hv. lia. }
  assert (∀ i name, field_names meta !! i = Some name → is_Some (all_kwargs !! name)) as Hsome.
  { intros i name Hname. rewrite (Hall i name Hname). unfold argument.
    destruct (args !! i) as [v|]; [done|]. destruct (kwargs !! name) as [v|]; [done|].
    destruct (record_field cls meta r name Hok Hplain Hr) as (w & -> & _);
      [by eapply list_elem_of_lookup_2 | done]. }
  assert (dom all_kwargs = list_to_set (drop (length ([] : list value)) (field_names meta)))
    as Hdom_all.
  { cbn [length drop]. apply set_eq. intros name. rewrite elem_of_list_to_set. split.
    - intros Hin. unfold all_kwargs in Hin. rewrite py_dict_spec, dom_union in Hin.
      apply elem_of_union in Hin as [Hin|Hin]; [|by apply Hknown'].
      rewrite dom_list_to_map_L, elem_of_list_to_set, fmap_reverse, elem_of_reverse,
        zip_swap_keys in Hin. by eapply subseteq_take.
    - intros Hin. apply list_elem_of_lookup in Hin as [i Hname].
      apply elem_of_dom. by eapply Hsome. }
  destruct (init_complete cls meta [] all_kwargs Hok) as (fv & Hinit & _);
    [by rewrite Hdom_all, elem_of_list_to_set | simpl; lia | exact Hdom_all |].
  destruct (init_fv _ _ _ _ _ Hok Hinit) as (fv' & Heq & Hlen' & Hfv').
  exists fv'. rewrite Heq in Hinit.
  split_and!; [done | by eapply record_built | done |].
  intros i name Hname.
  rewrite (Hfv' i name Hname). unfold argument. rewrite lookup_nil. by eapply Hall.
Qed.

Lemma copy_invalid cls meta r args kwargs :
  class_ok cls meta → plain_class cls meta → record_of cls r →
  "as_dict" ∉ field_names meta →
  ¬ valid_call args kwargs (field_names meta) true →
  ∃ message, BaseSerializable.copy r args kwargs = Raise (TypeError message).
Proof.
  intros Hok Hplain Hr Has_dict Hno.
  destruct (as_dict_record _ _ _ Hok Hplain Hr) as (d & Hd & Hdom & Hlook).
  destruct (record_of_inv _ _ _ Hok Hplain Hr) as (fv0 & Hcls & _).
  destruct (copy_combined_kwargs d kwargs args (field_names meta) Hdom)
    as (Hdisj & Hkw & _).
  unfold BaseSerializable.copy.
  rewrite (record_instance_meta _ _ _ _ Hok Hplain Hr). cbn [bind].
  rewrite (record_call_method_free _ _ _ _ _ Hok Hplain Hr Has_dict), Hd. cbn [bind].
  rewrite Hcls.
  set (combined := _ ∪ kwargs) in *.
  rewrite bool_decide_false by (intros Hne; by apply Hne). cbn [bind].
  unfold merge_args_to_kwargs.
  destruct (validate_cases args combined (field_names meta) false)
    as [[_ (Hnd & Hused & Hknown & _)]|[[m ->] _]]; [|cbn [bind]; eauto].
  destruct Hno.
  assert (∀ name, name ∈ dom kwargs → name ∈ dom combined) as Hsub.
  { intros name Hin. apply elem_of_dom. rewrite (Hkw name Hin). by apply elem_of_dom. }
  split_and!; [done | | | done].
  - intros name Ht Hin. by apply (Hused name Ht), Hsub.
  - intros name Hin. by apply Hknown, Hsub.
Qed.

End copy_facts.

(** [copy] replaces exactly the fields it is given.  For a record of a
    plain class none of whose fields is called [self], [as_dict] or [copy]:
    on a call whose names are valid (a name may be left out) [copy] returns
    a new record of the same class, its hash not yet cached, that holds for
    every field the projection of the value given for it, positionally or
    by name, and the value of the original for a field not given;
    positional values beyond the number of fields are ignored.  A call that
    is not valid raises a [TypeError].  Without arguments ([__copy__] and
    [__deepcopy__] as well) the copy yields the same values as the
    original. *)
Theorem copy_replaces_exactly_the_overrides `{PyHash} cls meta r args kwargs :
  class_ok cls meta → plain_class cls meta → record_names_free meta → record_of cls r →
  (valid_call args kwargs (field_names meta) true →
     ∃ obj, BaseSerializable.copy r args kwargs = Ok obj
       ∧ record_of cls obj ∧ __class__ obj = cls ∧ _hash_cache obj = None
       ∧ ∀ i name, field_names meta !! i = Some name →
           field_value obj name
           = match argument args kwargs i name with
             | Some v => Some (make_immutable v)
             | None => field_value r name
             end)
  ∧ (¬ valid_call args kwargs (field_names meta) true →
     ∃ message, BaseSerializable.copy r args kwargs = Raise (TypeError message))
  ∧ (∃ obj, BaseSerializable.copy r [] ∅ = Ok obj
       ∧ BaseSerializable.__copy__ r = Ok obj ∧ BaseSerializable.__deepcopy__ r = Ok obj
       ∧ BaseSerializable.__iter__ obj = BaseSerializable.__iter__ r
       ∧ __dict__ obj = __dict__ r).
Proof.
  intros Hok Hplain Hfree Hr.
  apply Forall_cons in Hfree as [Hself Hfree]. apply Forall_cons in Hfree as [Has_dict Hfree].
  apply Forall_cons in Hfree as [Hcopy_name _].
  pose proof (plain_no_meta_slot _ _ Hplain) as Hslot.
  split_and!.
  - intros Hvalid.
    destruct (copy_valid _ _ _ _ _ Hok Hplain Hr Hself Has_dict Hvalid)
      as (fv & Hcopy & Hrec & Hlen & Hfv).
    exists (new_record cls meta fv). split_and!; [done..|].
    intros i name Hname. specialize (Hfv i name Hname).
    destruct (lookup_lt_is_Some_2 fv i) as [w Hw].
    { rewrite Hlen. by eapply lookup_lt_Some. }
    rewrite (new_record_field cls meta fv i name w Hok Hname Hw).
    rewrite Hw in Hfv. destruct (argument args kwargs i name) as [v|].
    + by injection Hfv as ->.
    + rewrite <- Hfv.
      destruct (record_field cls meta r name Hok Hplain Hr) as (w' & Hw' & Hfix);
        [by eapply list_elem_of_lookup_2|].
      rewrite <- Hfv in Hw'. injection Hw' as <-. by rewrite Hfix.
  - intros Hno. exact (copy_invalid cls meta r args kwargs Hok Hplain Hr Has_dict Hno).
  - assert (valid_call [] ∅ (field_names meta) true) as Hvalid.
    { split_and!; [apply (ok_names _ _ Hok) | by intros n ?%elem_of_nil | | done].
      intros n Hn. by rewrite dom_empty_L in Hn. }
    destruct (copy_valid _ _ _ _ _ Hok Hplain Hr Hself Has_dict Hvalid)
      as (fv & Hcopy & Hrec & Hlen & Hfv).
    destruct (record_items _ _ _ Hok Hplain Hr)
      as (items & Hiter & Hilen & Hfix & _ & Hfield & _).
    destruct (record_of_inv _ _ _ Hok Hplain Hr) as (fv0 & _ & Hdict & Hlen0 & Hiter0 & _).
    assert (fv = items) as ->.
    { apply list_eq_same_length with (length (field_names meta)); [done | done |].
      intros i x y Hi Hx Hy.
      destruct (lookup_lt_is_Some_2 (field_names meta) i Hi) as [name Hname].
      specialize (Hfv i name Hname). unfold argument in Hfv.
      rewrite lookup_nil, lookup_empty, (Hfield i name Hname) in Hfv. congruence. }
    assert (make_immutable <$> items = items) as Hitems.
    { clear -Hfix. induction Hfix as [|x l Hx _ IH]; [done|]. by rewrite fmap_cons, Hx, IH. }
    exists (new_record cls meta items).
    unfold BaseSerializable.__copy__, BaseSerializable.__deepcopy__.
    rewrite (record_call_method_free _ _ _ _ _ Hok Hplain Hr Hcopy_name).
    split_and!; [done | done | done | |].
    + by rewrite (new_record_iter _ _ _ Hok Hslot Hlen), Hitems.
    + rewrite Hdict. rewrite Hiter in Hiter0. injection Hiter0 as Heq.
      cbn [__dict__ new_record]. rewrite !setattr_loop. by rewrite Hitems, <- Heq.
Qed.

Lemma Point_record_names_free : record_names_free (the_meta Point).
Proof. apply (bool_decide_unpack _). vm_compute. exact I. Defined.

Lemma copy_replaces_exactly_the_overrides_witness :
  ∃ obj,
    BaseSerializable.copy (new_record Point (the_meta Point) [int 1; int 2])
      [] {["y" := VList [int 5]]} = Ok obj
    ∧ field_value obj "x" = Some (int 1)
    ∧ field_value obj "y" = Some (VTuple [int 5]).
Proof.
  assert (BaseSerializable.__init__ Point [int 1; int 2] ∅
          = Ok (new_record Point (the_meta Point) [int 1; int 2])) as Hp
    by (vm_compute; reflexivity).
  assert (valid_call [] {["y" := VList [int 5]]} (field_names (the_meta Point)) true) as Hvalid.
  { destruct (validate_cases [] {["y" := VList [int 5]]} (field_names (the_meta Point)) true)
      as [[_ Hv]|[[m Hm] _]]; [exact Hv | vm_compute in Hm; discriminate]. }
  destruct (@copy_replaces_exactly_the_overrides sample_hash Point (the_meta Point)
              (new_record Point (the_meta Point) [int 1; int 2]) [] {["y" := VList [int 5]]}
              Point_ok Point_plain Point_record_names_free
              (@record_built sample_hash Point [int 1; int 2] ∅ _ Hp))
    as [Hcopy _].
  destruct (Hcopy Hvalid) as (obj & Hobj & _ & _ & _ & Hf).
  exists obj. split; [exact Hobj|]. split.
  - rewrite (Hf 0%nat "x" eq_refl). vm_compute. reflexivity.
  - rewrite (Hf 1%nat "y" eq_refl). vm_compute. reflexivity.
Defined.

(** ** Field names that get in the way of the methods *)

(** A field whose slot is called [_meta] (the field [meta] of a class whose
    bases have no schema) can be constructed, and stores its value, but the
    instance attribute then hides the [_meta] of the class: iterating the
    record, hashing it, [as_dict], [len] and [r[0]] raise an
    [AttributeError]. *)
Theorem slot_meta_hides_schema `{PyHash} cls meta args kwargs r :
  class_ok cls meta → "_meta" ∈ field_attrs meta →
  BaseSerializable.__init__ cls args kwargs = Ok r →
  _hash_cache r = None
  ∧ (∃ message, BaseSerializable.__iter__ r = Raise (AttributeError message))
  ∧ (∃ message, BaseSerializable.__hash__ r = Raise (AttributeError message))
  ∧ (∃ message, BaseSerializable.as_dict r = Raise (AttributeError message))
  ∧ (∃ message, BaseSerializable.__len__ r = Raise (AttributeError message))
  ∧ (∃ message, BaseSerializable.__getitem__ r (IdxInt 0) = Raise (AttributeError message)).
Proof.
  intros Hok Hslot Hinit.
  destruct (init_fv _ _ _ _ _ Hok Hinit) as (fv & -> & Hlen & _).
  apply list_elem_of_lookup in Hslot as [i Hi].
  destruct (lookup_lt_is_Some_2 fv i) as [v Hv].
  { rewrite Hlen, <- (ok_length _ _ Hok). by eapply lookup_lt_Some. }
  pose proof (new_record_slot cls meta fv i "_meta" v (ok_attrs _ _ Hok) Hi Hv) as Hd.
  assert (∀ attribute, ∃ message,
            instance_meta (new_record cls meta fv) attribute = Raise (AttributeError message))
    as Hmeta.
  { intros attribute. unfold instance_meta. rewrite Hd. eauto. }
  split_and!; [done | | | | |].
  - unfold BaseSerializable.__iter__. destruct (Hmeta "field_attrs") as [m ->]. eauto.
  - unfold BaseSerializable.__hash__, BaseSerializable.__iter__. cbn [_hash_cache new_record].
    destruct (Hmeta "field_attrs") as [m ->]. eauto.
  - unfold BaseSerializable.as_dict. destruct (Hmeta "field_names") as [m ->]. eauto.
  - unfold BaseSerializable.__len__. destruct (Hmeta "fields") as [m ->]. eauto.
  - unfold BaseSerializable.__getitem__. destruct (Hmeta "field_attrs") as [m ->]. eauto.
Qed.

Lemma slot_meta_hides_schema_witness :
  ∃ cls r,
    @SerializableBase.__new__ sample_interpreter "Tagged" [Serializable_class]
      (Some [("meta", raw)]) class_statement = Ok cls
    ∧ BaseSerializable.__init__ cls [int 5] ∅ = Ok r
    ∧ ∃ message, @BaseSerializable.__hash__ sample_hash r = Raise (AttributeError message).
Proof.
  set (cls := from_ok (@SerializableBase.__new__ sample_interpreter "Tagged"
                         [Serializable_class] (Some [("meta", raw)]) class_statement)).
  assert (@SerializableBase.__new__ sample_interpreter "Tagged" [Serializable_class]
            (Some [("meta", raw)]) class_statement = Ok cls) as Hcls
    by (vm_compute; reflexivity).
  assert (BaseSerializable.__init__ cls [int 5] ∅ = Ok (new_record cls (the_meta cls) [int 5]))
    as Hinit by (vm_compute; reflexivity).
  assert (class_ok cls (the_meta cls)) as Hok by sample_class_ok.
  exists cls, (new_record cls (the_meta cls) [int 5]).
  split; [exact Hcls|]. split; [exact Hinit|].
  destruct (@slot_meta_hides_schema sample_hash cls (the_meta cls) [int 5] ∅ _ Hok
              ltac:(apply (bool_decide_unpack _); vm_compute; exact I) Hinit)
    as (_ & _ & Hhash & _).
  exact Hhash.
Defined.

(** A field with the name of a method that [commit] calls on the changeset
    takes the place of the method in the class of the changeset: with a
    field called [build_rlp] (or, when [build_rlp] is no field, [close]),
    [commit] on an OPEN changeset raises a [TypeError], the field value not
    being callable, and on a changeset that is not OPEN the
    [AttributeError] of the field access. *)
Theorem field_hides_changeset_method `{PyHash} cls meta cs :
  class_ok cls meta → plain_class cls meta → record_of cls (__original__ cs) →
  "self" ∉ field_names meta →
  ("build_rlp" ∈ field_names meta →
     (__state__ cs = OPEN →
        ∃ message, BaseChangeset.commit cs = Raise (TypeError message))
     ∧ (__state__ cs ≠ OPEN →
        ∃ message, BaseChangeset.commit cs = Raise (AttributeError message)))
  ∧ ("build_rlp" ∉ field_names meta → "close" ∈ field_names meta →
     __state__ cs = OPEN →
     ∃ message, BaseChangeset.commit cs = Raise (TypeError message)).
Proof.
  intros Hok Hplain Hr Hself.
  destruct (record_of_inv _ _ _ Hok Hplain Hr) as (fv & Hcls & _).
  assert (∀ method, method ∈ field_names meta → __state__ cs = OPEN →
            ∃ v, ChangesetField.__get__ method cs = Ok v) as Hget.
  { intros method Hin Hopen. unfold ChangesetField.__get__.
    rewrite bool_decide_false by (intros Hne; by apply Hne).
    destruct (__diff__ cs !! method) as [staged|]; [eauto|].
    destruct (record_field _ _ _ method Hok Hplain Hr Hin) as (v & Hv & _).
    exists v. by apply getattr_field_value. }
  assert (∀ A method (body : result A), method ∈ field_names meta → __state__ cs = OPEN →
            ∃ message, BaseChangeset.call_method cs method body = Raise (TypeError message))
    as Hcall.
  { intros A method body Hin Hopen. unfold BaseChangeset.call_method, changeset_fields.
    rewrite Hcls, (ok_meta _ _ Hok). rewrite bool_decide_true by done.
    destruct (Hget method Hin Hopen) as [v ->]. cbn [bind]. eauto. }
  split.
  - intros Hin. split.
    + intros Hopen. unfold BaseChangeset.commit.
      destruct (Hcall _ "build_rlp" (BaseChangeset.build_rlp cs) Hin Hopen) as [m ->]. eauto.
    + intros Hstate. unfold BaseChangeset.commit, BaseChangeset.call_method, changeset_fields.
      rewrite Hcls, (ok_meta _ _ Hok). rewrite bool_decide_true by done.
      unfold ChangesetField.__get__. rewrite bool_decide_true by done. cbn [bind]. eauto.
  - intros Hbuild Hclose Hopen. unfold BaseChangeset.commit.
    rewrite (call_method_free _ _ _ _ _ Hok Hplain Hr Hbuild).
    destruct (build_rlp_open _ _ _ Hok Hplain Hr Hself Hopen) as (kw & obj & -> & _).
    cbn [bind].
    destruct (Hcall _ "close" (BaseChangeset.close cs) Hclose Hopen) as [m ->]. eauto.
Qed.

Lemma field_hides_changeset_method_witness :
  ∃ cls r,
    @SerializableBase.__new__ sample_interpreter "Job" [Serializable_class]
      (Some [("build_rlp", raw)]) class_statement = Ok cls
    ∧ BaseSerializable.__init__ cls [int 5] ∅ = Ok r
    ∧ ∃ message,
        BaseChangeset.commit {| __original__ := r; __state__ := OPEN; __diff__ := ∅ |}
        = Raise (TypeError message).
Proof.
  set (cls := from_ok (@SerializableBase.__new__ sample_interpreter "Job"
                         [Serializable_class] (Some [("build_rlp", raw)]) class_statement)).
  assert (@SerializableBase.__new__ sample_interpreter "Job" [Serializable_class]
            (Some [("build_rlp", raw)]) class_statement = Ok cls) as Hcls
    by (vm_compute; reflexivity).
  assert (BaseSerializable.__init__ cls [int 5] ∅ = Ok (new_record cls (the_meta cls) [int 5]))
    as Hinit by (vm_compute; reflexivity).
  assert (class_ok cls (the_meta cls)) as Hok by sample_class_ok.
  assert (plain_class cls (the_meta cls)) as Hplain by sample_class_plain.
  exists cls, (new_record cls (the_meta cls) [int 5]).
  split; [exact Hcls|]. split; [exact Hinit|].
  destruct (@field_hides_changeset_method sample_hash cls (the_meta cls)
              {| __original__ := new_record cls (the_meta cls) [int 5];
                 __state__ := OPEN; __diff__ := ∅ |}
              Hok Hplain (@record_built sample_hash cls [int 5] ∅ _ Hinit)
              ltac:(apply (bool_decide_unpack _); vm_compute; exact I))
    as [Hbuild _].
  destruct Hbuild as [Hopen _]; [apply (bool_decide_unpack _); vm_compute; exact I|].
  exact (Hopen eq_refl).
Defined.

(** ** Pickling: [__getstate__] *)

(** The state that [__getstate__] hands to [pickle] for a record of a plain
    class holds [None] under [_hash_cache] and, under every slot, the value
    of its field; it is the same state before and after the record has
    been hashed, so a pickled record never carries a cached hash. *)
Theorem getstate_drops_hash_cache `{PyHash} cls meta r :
  class_ok cls meta → plain_class cls meta → record_of cls r →
  BaseSerializable.__getstate__ r !! "_hash_cache" = Some (VAtom ANone)
  ∧ (∀ i name attr, field_names meta !! i = Some name → field_attrs meta !! i = Some attr →
       BaseSerializable.__getstate__ r !! attr = field_value r name)
  ∧ (∀ h r', BaseSerializable.__hash__ r = Ok (h, r') →
       BaseSerializable.__getstate__ r' = BaseSerializable.__getstate__ r).
Proof.
  intros Hok Hplain Hr.
  destruct (record_of_inv _ _ _ Hok Hplain Hr) as (fv & Hcls & Hdict & Hlen & Hiter & _).
  split_and!.
  - unfold BaseSerializable.__getstate__. apply lookup_insert_eq.
  - intros i name attr Hname Hattr.
    assert (attr ≠ "_hash_cache") as Hne.
    { intros ->. apply (plain_slots _ _ Hplain "_hash_cache").
      - by eapply list_elem_of_lookup_2.
      - apply (plain_bases _ _ Hplain), elem_of_union_r.
        apply (bool_decide_unpack _). vm_compute. exact I. }
    unfold BaseSerializable.__getstate__. rewrite lookup_insert_ne by done.
    assert (field_value r name = __dict__ r !! attr) as ->.
    { unfold field_value. rewrite Hcls, (ok_meta _ _ Hok). unfold field_props.
      erewrite py_dict_lookup; [done | by apply zip_fst_NoDup, (ok_names _ _ Hok) |].
      by eapply zip_lookup_pair. }
    destruct (_hash_cache r); [by rewrite lookup_insert_ne|done].
  - intros h r' Hhash. unfold BaseSerializable.__hash__ in Hhash.
    destruct (_hash_cache r) as [h0|] eqn:Hc; [by injection Hhash as <- <-|].
    rewrite Hiter in Hhash. cbn [bind] in Hhash.
    destruct (hash (VTuple (make_immutable <$> fv))) as [h'|e]; [|done].
    injection Hhash as <- <-. unfold BaseSerializable.__getstate__.
    cbn [_hash_cache __dict__]. rewrite Hc. apply insert_insert_eq.
Qed.

Lemma getstate_drops_hash_cache_witness :
  ∃ h r',
    @BaseSerializable.__hash__ sample_hash (new_record Point (the_meta Point) [int 1; int 2])
    = Ok (h, r')
    ∧ _hash_cache r' = Some h
    ∧ BaseSerializable.__getstate__ r'
      = BaseSerializable.__getstate__ (new_record Point (the_meta Point) [int 1; int 2]).
Proof.
  assert (BaseSerializable.__init__ Point [int 1; int 2] ∅
          = Ok (new_record Point (the_meta Point) [int 1; int 2])) as Hp
    by (vm_compute; reflexivity).
  destruct (@getstate_drops_hash_cache sample_hash Point (the_meta Point)
              (new_record Point (the_meta Point) [int 1; int 2]) Point_ok Point_plain
              (@record_built sample_hash Point [int 1; int 2] ∅ _ Hp))
    as (_ & _ & Hsame).
  eexists. eexists. split; [vm_compute; reflexivity|]. split; [reflexivity|].
  apply (Hsame (@hash_tuple sample_hash [1; 2])). vm_compute. reflexivity.
Defined.
